(** * SimpleBackgroundRemover: a shallow embedding of [main.js]

    The development follows the class [SimpleBackgroundRemover]:

    - [JSNumber]: the IEEE-754 binary64 arithmetic the pixel code relies on
      ([Math.sqrt], [Math.floor], [Math.round], typed-array element access,
      the clamped 8-bit store and the 32-bit float store), on top of the
      executable [SpecFloat] operations;
    - [Pixels]: [_preprocessImage] and [_applyMask] as loops over arrays;
    - [Cache]: [_getCachedModel] and [_cacheModel] over an IndexedDB model;
    - [Fetcher]: the streaming loop of [_downloadAndCacheModelWithProgress];
    - [Orchestrator]: [removeBackground] and [_loadModelWithProgress] as a
      machine whose steps are the code segments between two [await]s, run
      either alone or interleaved with other calls on the same instance. *)

From Stdlib Require Import ZArith Lia Bool SpecFloat.
From stdpp Require Import gmap strings list.

(** ** JavaScript numbers *)

Module JSNumber.

Local Open Scope Z_scope.

(** A JS Number is a binary64 float. *)
Definition prec : Z := 53.
Definition emax : Z := 1024.

Definition number : Type := spec_float.

Definition NaN : number := S754_nan.
Definition pos_zero : number := S754_zero false.

(** An integer literal or an integer-valued property such as [.length]. *)
Definition of_Z (z : Z) : number := binary_normalize prec emax z 0 false.
Definition of_nat (n : nat) : number := of_Z (Z.of_nat n).

Definition add : number -> number -> number := SFadd prec emax.
Definition mul : number -> number -> number := SFmul prec emax.
Definition div : number -> number -> number := SFdiv prec emax.
Definition Math_sqrt : number -> number := SFsqrt prec emax.
Definition ltb : number -> number -> bool := SFltb.

(** [Math.floor]: the mantissa is shifted right by the (negative) exponent;
    [Z.shiftr] rounds toward minus infinity, as [Math.floor] does. *)
Definition Math_floor (x : number) : number :=
  match x with
  | S754_finite s m e =>
      if 0 <=? e then x
      else
        let q := Z.shiftr (cond_Zopp s (Zpos m)) (- e) in
        if q =? 0 then S754_zero s else of_Z q
  | _ => x
  end.

(** [Math.round]: the nearest integer, ties toward plus infinity, that is
    floor(x + 1/2) computed exactly; a result of zero keeps the sign of [x]. *)
Definition Math_round (x : number) : number :=
  match x with
  | S754_finite s m e =>
      if 0 <=? e then x
      else
        let q := Z.shiftr (2 * cond_Zopp s (Zpos m) + 2 ^ (- e)) (1 - e) in
        if q =? 0 then S754_zero s else of_Z q
  | _ => x
  end.

(** The mathematical value of an integer-valued Number ([None] when the
    Number is not an integer). *)
Definition to_Z (x : number) : option Z :=
  match x with
  | S754_zero _ => Some 0
  | S754_finite s m e =>
      if 0 <=? e then Some (cond_Zopp s (Zpos m * 2 ^ e))
      else if Zpos m mod 2 ^ (- e) =? 0
           then Some (cond_Zopp s (Zpos m / 2 ^ (- e)))
           else None
  | _ => None
  end.

(** [ta[k]] for a typed array [ta] and a Number key [k]: the element when
    [k] is an integer inside the array, [undefined] ([None]) otherwise:
    fractional, negative, infinite and NaN keys all read [undefined]. *)
Definition typed_get {A} (ta : list A) (k : number) : option A :=
  match to_Z k with
  | Some i => if 0 <=? i then ta !! Z.to_nat i else None
  | None => None
  end.

(** [v || 0] for [v] a Number or [undefined]: NaN, both zeros and
    [undefined] are falsy. *)
Definition or_zero (v : option number) : number :=
  match v with
  | None => pos_zero
  | Some S754_nan => pos_zero
  | Some (S754_zero _) => pos_zero
  | Some x => x
  end.

(** The conversion applied by a store into a [Uint8ClampedArray]
    (ToUint8Clamp): NaN becomes 0, the value is clamped to the range of a
    byte and rounded to the nearest integer, ties to even. *)
Definition ToUint8Clamp (x : number) : Z :=
  match x with
  | S754_nan => 0
  | S754_zero _ => 0
  | S754_infinity s => if s then 0 else 255
  | S754_finite true _ _ => 0
  | S754_finite false m e =>
      if 0 <=? e then Z.min 255 (Zpos m * 2 ^ e)
      else
        let d := 2 ^ (- e) in
        let f := Zpos m / d in
        Z.min 255
          match (2 * (Zpos m mod d)) ?= d with
          | Lt => f
          | Gt => f + 1
          | Eq => if Z.even f then f else f + 1
          end
  end.

(** Numbers are compared field by field in the checks by computation. *)
#[global] Instance spec_float_eq_dec : EqDecision spec_float.
Proof. solve_decision. Defined.

(** Elements of a [Float32Array] are binary32 floats. *)
Definition prec32 : Z := 24.
Definition emax32 : Z := 128.

Definition float32 : Type := spec_float.

(** The conversion applied by a store into a [Float32Array]: the Number is
    rounded to the nearest binary32 value. *)
Definition fround (x : number) : float32 :=
  match x with
  | S754_finite s m e => binary_normalize prec32 emax32 (cond_Zopp s (Zpos m)) e s
  | _ => x
  end.

Definition f32_zero : float32 := S754_zero false.
Definition f32_one : float32 := binary_normalize prec32 emax32 1 0 false.

(** Both bounds of the closed unit interval, on binary32 values. *)
Definition f32_in_unit (v : float32) : bool := SFleb f32_zero v && SFleb v f32_one.

End JSNumber.

Import JSNumber.

(** A byte of a [Uint8ClampedArray]. *)
Definition is_byte (b : Z) : Prop := (0 <= b <= 255)%Z.

(** ** Pixel code: [_preprocessImage] and [_applyMask] *)

Module Pixels.

(** What [ctx.getImageData] returns: RGBA bytes, row-major, four per pixel. *)
Record ImageData := {
  width : nat;
  height : nat;
  data : list Z
}.

(** *** [_preprocessImage] *)

(** [data[k] / 255.0]; a read outside the array gives [undefined], and
    [undefined / 255.0] is NaN. *)
Definition normalized (d : list Z) (k : nat) : number :=
  div (match d !! k with Some b => of_Z b | None => NaN end) (of_Z 255).

(** One iteration of the loop of [_preprocessImage] over a canvas of
    [n] pixels: three stores into the [Float32Array]. *)
Definition preprocess_body (n : nat) (d : list Z) (t : list float32) (i : nat)
  : list float32 :=
  let t1 := <[i := fround (normalized d (i * 4))]> t in
  let t2 := <[n + i := fround (normalized d (i * 4 + 1))]> t1 in
  <[2 * n + i := fround (normalized d (i * 4 + 2))]> t2.

(** [new Float32Array(1 * 3 * n)] followed by the loop [for i < n]. *)
Definition preprocess_loop (n : nat) (d : list Z) : list float32 :=
  foldl (preprocess_body n d) (replicate (1 * 3 * n) f32_zero) (seq 0 n).

(** The state of the tensor after the first [k] iterations of the loop. *)
Definition preprocess_upto (n : nat) (d : list Z) (k : nat) : list float32 :=
  foldl (preprocess_body n d) (replicate (1 * 3 * n) f32_zero) (seq 0 k).

(** The canvas the image is drawn on is 1024 by 1024. *)
Definition canvas_side : nat := 1024.
Definition canvas_pixels : nat := canvas_side * canvas_side.

Record Tensor := {
  tensor_type : string;
  tensor_data : list float32;
  dims : list nat
}.

(** [_preprocessImage], from the bytes [ctx.getImageData(0, 0, 1024, 1024)]
    returned for the drawn image. *)
Definition _preprocessImage (d : list Z) : Tensor :=
  {| tensor_type := "float32";
     tensor_data := preprocess_loop canvas_pixels d;
     dims := [1; 3; canvas_side; canvas_side] |}.

(** *** [_applyMask] *)

(** The value stored in the alpha byte of pixel (x, y). *)
Definition mask_alpha (maskData : list number) (w h x y : nat) : Z :=
  let maskSize := Math_sqrt (of_nat (length maskData)) in
  let maskX := Math_floor (mul (div (of_nat x) (of_nat w)) maskSize) in
  let maskY := Math_floor (mul (div (of_nat y) (of_nat h)) maskSize) in
  let maskIdx := add (mul maskY maskSize) maskX in
  let alpha := or_zero (typed_get maskData maskIdx) in
  ToUint8Clamp (Math_round (mul alpha (of_Z 255))).

(** The body of the inner loop: one store, at [imgIdx + 3]. *)
Definition applyMask_body (maskData : list number) (w h y : nat)
    (d : list Z) (x : nat) : list Z :=
  let imgIdx := (y * w + x) * 4 in
  <[imgIdx + 3 := mask_alpha maskData w h x y]> d.

Definition applyMask_row (maskData : list number) (w h : nat)
    (d : list Z) (y : nat) : list Z :=
  foldl (applyMask_body maskData w h y) d (seq 0 w).

(** The two nested loops of [_applyMask] over the bytes of the image. *)
Definition applyMask_loop (maskData : list number) (w h : nat) (d : list Z)
  : list Z :=
  foldl (applyMask_row maskData w h) d (seq 0 h).

(** [_applyMask] from [getImageData] to [putImageData]. *)
Definition _applyMask (im : ImageData) (maskData : list number) : ImageData :=
  {| width := width im;
     height := height im;
     data := applyMask_loop maskData (width im) (height im) (data im) |}.

(** The stores of [_applyMask] in program order: position and value. *)
Definition alpha_writes (maskData : list number) (w h : nat) : list (nat * Z) :=
  y ← seq 0 h; x ← seq 0 w; [((y * w + x) * 4 + 3, mask_alpha maskData w h x y)].

Definition store (d : list Z) (iv : nat * Z) : list Z := <[iv.1 := iv.2]> d.

(** The mask cell the specification selects: the side is floored first. *)
Definition spec_mask_alpha (maskData : list number) (w h x y : nat) : Z :=
  let M := Math_floor (Math_sqrt (of_nat (length maskData))) in
  let maskX := Math_floor (mul (div (of_nat x) (of_nat w)) M) in
  let maskY := Math_floor (mul (div (of_nat y) (of_nat h)) M) in
  let value := or_zero (typed_get maskData (add (mul maskY M) maskX)) in
  ToUint8Clamp (Math_round (mul value (of_Z 255))).

End Pixels.

Import Pixels.

(** ** Outcomes of the asynchronous functions *)

(** Operations of the host (browser, network, inference engine) whose
    promise can reject or which can throw. *)
Inductive HostOp :=
  | ImageDecode        (* img.onerror in _base64ToImage *)
  | OrtUndefined       (* property access on an undefined globalThis.ort *)
  | FetchCall          (* fetch(url) rejects *)
  | StreamRead         (* reader.read() rejects *)
  | SessionCreate      (* ort.InferenceSession.create rejects *)
  | SessionRun         (* session.run rejects *)
  | GetImageData       (* ctx.getImageData on an empty rectangle *)
  | ImageEncode.       (* img.onerror in _canvasToImage *)

(** The errors a call can reject with: those the class throws itself, with
    the names of the specification, and rejections of the host, which the
    class lets through unchanged. *)
Inductive Error :=
  | InputTypeError                 (* 'Input must be an HTMLImageElement or a base64 string' *)
  | ModelNotLoaded                 (* 'Model not loaded' *)
  | EngineUnavailableError         (* 'onnxruntime-web (ort) is not loaded. ...' *)
  | DownloadError (msg : string)   (* 'Model download failed', 'Response body is null' *)
  | CanvasContextError             (* 'Could not get 2D context from canvas' *)
  | HostError (op : HostOp).

Inductive Result (A : Type) :=
  | Ok (a : A)
  | Throw (e : Error).
Arguments Ok {A} a.
Arguments Throw {A} e.

(** ** Progress events *)

Inductive Message :=
  | Text (s : string)
  | Downloading (percent megabytes : number).
      (* `Downloading model... ${percent}% (${megabytes}MB)` *)

(** One call of [_emitProgress(percent, message, onProgress)]; a registered
    callback receives exactly these arguments, in this order. *)
Record ProgressEvent := {
  percent : number;
  message : Message
}.

Definition progress (p : Z) (msg : string) : ProgressEvent :=
  {| percent := of_Z p; message := Text msg |}.

Definition percents (evs : list ProgressEvent) : list number := percent <$> evs.

Fixpoint strictly_increasing (l : list number) : bool :=
  match l with
  | a :: (b :: _) as l' => ltb a b && strictly_increasing l'
  | _ => true
  end.

(** ** Model cache: [_getCachedModel] and [_cacheModel] *)

Module Cache.

(** A record of the object store 'models'. *)
Record CachedModelEntry := {
  entry_data : list Z;
  timestamp : Z;
  version : string
}.

(** The storage of the page, as far as the class uses it. *)
Inductive IndexedDB :=
  | NoIndexedDB        (* window.indexedDB is undefined *)
  | OpenFails          (* indexedDB.open('ModelCache', 1) fires onerror *)
  | NotCreated         (* the database does not exist yet: onupgradeneeded *)
  | Opened (models : gmap string CachedModelEntry).

(** The object store after [indexedDB.open] succeeded; [onupgradeneeded]
    creates an empty store 'models' in a new database. *)
Definition open_models (idb : IndexedDB) : option (gmap string CachedModelEntry) :=
  match idb with
  | NoIndexedDB | OpenFails => None
  | NotCreated => Some ∅
  | Opened models => Some models
  end.

(** [_getCachedModel]: the promise resolves on every path, with the bytes
    or with [null]; opening a database that does not exist creates it. *)
Definition _getCachedModel (modelCacheKey : string) (idb : IndexedDB)
  : Result (option (list Z)) * IndexedDB :=
  match idb with
  | NoIndexedDB => (Ok None, idb)                     (* !window.indexedDB *)
  | OpenFails => (Ok None, idb)                       (* request.onerror *)
  | _ =>
      match open_models idb with
      | Some models =>
          (Ok (entry_data <$> models !! modelCacheKey), Opened models)
      | None => (Ok None, idb)
      end
  end.

(** [_cacheModel]: the promise resolves on every path; on an open database
    the record is put under the key. *)
Definition _cacheModel (modelCacheKey : string) (now : Z) (modelBuffer : list Z)
    (idb : IndexedDB) : Result unit * IndexedDB :=
  match idb with
  | NoIndexedDB => (Ok (), idb)                       (* !window.indexedDB *)
  | OpenFails => (Ok (), idb)                         (* request.onerror *)
  | _ =>
      match open_models idb with
      | Some models =>
          let cacheData :=
            {| entry_data := modelBuffer; timestamp := now; version := "1.4" |} in
          (Ok (), Opened (<[modelCacheKey := cacheData]> models))
      | None => (Ok (), idb)
      end
  end.

(** The storage can be opened. *)
Definition available (idb : IndexedDB) : bool :=
  match idb with
  | NotCreated | Opened _ => true
  | NoIndexedDB | OpenFails => false
  end.

End Cache.

Import Cache.

(** Network and storage accesses, in the order they are started. *)
Inductive IOEvent :=
  | IdbOpen
  | NetFetch (url : string).

(** Calling [indexedDB.open] is a storage access; without
    [window.indexedDB] none happens. *)
Definition idb_io (idb : IndexedDB) : list IOEvent :=
  match idb with
  | NoIndexedDB => []
  | _ => [IdbOpen]
  end.

(** ** Model fetcher: [_downloadAndCacheModelWithProgress] *)

Module Fetcher.

(** What successive [reader.read()] calls deliver. *)
Inductive Stream :=
  | Done                                   (* { done: true } *)
  | Chunk (value : list Z) (rest : Stream) (* { done: false, value } *)
  | ReadFails.                             (* the promise rejects *)

Record Response := {
  ok : bool;
  body : option Stream;
  (** The integer [parseInt] reads in the content-length header; [None]
      when the header is missing or [parseInt] gives NaN. *)
  content_length : option Z
}.

(** [parseInt(response.headers.get('content-length') || '0')]; a NaN fails
    the test [totalSize > 0] like 0 does. *)
Definition totalSize_of (r : Response) : Z := default 0%Z (content_length r).

(** [10 + Math.round((downloadedSize / totalSize) * 60)] *)
Definition download_percent (downloadedSize totalSize : Z) : number :=
  add (of_Z 10) (Math_round (mul (div (of_Z downloadedSize) (of_Z totalSize)) (of_Z 60))).

(** [Math.round(downloadedSize / 1024 / 1024)] *)
Definition megabytes (downloadedSize : Z) : number :=
  Math_round (div (div (of_Z downloadedSize) (of_Z 1024)) (of_Z 1024)).

(** [percent !== lastPercent] on Numbers. *)
Definition number_neq (a b : number) : bool := negb (SFeqb a b).

(** The loop [while (true)] around [reader.read()], with its variables
    [chunks], [downloadedSize] and [lastPercent], and the progress events
    it emits. *)
Fixpoint read_loop (totalSize : Z) (s : Stream) (chunks : list (list Z))
    (downloadedSize : Z) (lastPercent : number) (evs : list ProgressEvent)
  : Result (list (list Z) * Z) * list ProgressEvent :=
  match s with
  | ReadFails => (Throw (HostError StreamRead), evs)
  | Done => (Ok (chunks, downloadedSize), evs)
  | Chunk value rest =>
      let chunks := chunks ++ [value] in
      let downloadedSize := (downloadedSize + Z.of_nat (length value))%Z in
      if (totalSize >? 0)%Z then
        let percent := download_percent downloadedSize totalSize in
        if number_neq percent lastPercent then
          let ev := {| percent := percent;
                       message := Downloading percent (megabytes downloadedSize) |} in
          read_loop totalSize rest chunks downloadedSize percent (evs ++ [ev])
        else read_loop totalSize rest chunks downloadedSize lastPercent evs
      else read_loop totalSize rest chunks downloadedSize lastPercent evs
  end.

(** [modelBuffer.set(chunk, offset)] where the chunk fits. *)
Definition typed_set (buf chunk : list Z) (offset : nat) : list Z :=
  take offset buf ++ chunk ++ drop (offset + length chunk) buf.

(** [new Uint8Array(downloadedSize)] and the loop copying the chunks. *)
Definition assemble (chunks : list (list Z)) (downloadedSize : Z) : list Z :=
  (foldl (fun '(modelBuffer, offset) chunk =>
            (typed_set modelBuffer chunk offset, offset + length chunk))
         (replicate (Z.to_nat downloadedSize) 0%Z, 0) chunks).1.

Record Download := {
  outcome : Result (list Z);
  idb_after : IndexedDB;
  emitted : list ProgressEvent;
  accesses : list IOEvent
}.

(** [_downloadAndCacheModelWithProgress] from the point where the promise
    of [fetch] settles; [None] is a rejected [fetch]. The cache write of
    line 162 is awaited: were it to reject, the download would throw its
    error, after the event 75. *)
Definition download_continue (response : option Response) (modelCacheKey : string)
    (now : Z) (idb : IndexedDB) : Download :=
  let failed e evs :=
    {| outcome := Throw e; idb_after := idb; emitted := evs; accesses := [] |} in
  match response with
  | None => failed (HostError FetchCall) []
  | Some response =>
      if negb (ok response) then failed (DownloadError "Model download failed") []
      else
        match body response with
        | None => failed (DownloadError "Response body is null") []
        | Some stream =>
            match read_loop (totalSize_of response) stream [] 0%Z (of_Z 10) [] with
            | (Throw e, evs) => failed e evs
            | (Ok (chunks, downloadedSize), evs) =>
                let modelBuffer := assemble chunks downloadedSize in
                let evs := evs ++ [progress 75 "Caching model for future use..."] in
                match _cacheModel modelCacheKey now modelBuffer idb with  (* line 162 *)
                | (Throw e, idb') =>
                    {| outcome := Throw e; idb_after := idb';
                       emitted := evs; accesses := idb_io idb |}
                | (Ok _, idb') =>
                    {| outcome := Ok modelBuffer; idb_after := idb';
                       emitted := evs; accesses := idb_io idb |}
                end
            end
        end
  end.

(** [_downloadAndCacheModelWithProgress]: [fetch(this.modelUrl)] is one
    network access, whatever follows. *)
Definition _downloadAndCacheModelWithProgress (fetch : string -> option Response)
    (modelUrl modelCacheKey : string) (now : Z) (idb : IndexedDB) : Download :=
  let d := download_continue (fetch modelUrl) modelCacheKey now idb in
  {| outcome := outcome d; idb_after := idb_after d; emitted := emitted d;
     accesses := NetFetch modelUrl :: accesses d |}.

(** The chunks a stream delivers before it ends or fails. *)
Fixpoint stream_chunks (s : Stream) : list (list Z) :=
  match s with
  | Chunk value rest => value :: stream_chunks rest
  | _ => []
  end.

Fixpoint stream_completes (s : Stream) : bool :=
  match s with
  | Done => true
  | Chunk _ rest => stream_completes rest
  | ReadFails => false
  end.

(** The total length of a list of chunks. *)
Definition chunks_size (chunks : list (list Z)) : Z :=
  Z.of_nat (length (concat chunks)).

(** The intermediate percentages the loop computes, chunk after chunk. *)
Fixpoint computed_percents (totalSize : Z) (s : Stream) (downloadedSize : Z)
  : list number :=
  match s with
  | Chunk value rest =>
      let downloadedSize := (downloadedSize + Z.of_nat (length value))%Z in
      download_percent downloadedSize totalSize
        :: computed_percents totalSize rest downloadedSize
  | _ => []
  end.

(** A list with the elements equal to their predecessor removed, the
    predecessor of the first one being [last]. *)
Fixpoint changes (last : number) (l : list number) : list number :=
  match l with
  | [] => []
  | p :: l => if number_neq p last then p :: changes p l else changes last l
  end.

(** The failures the specification files under DownloadError, 'network/HTTP
    failure fetching the model': the two errors the function throws itself,
    and the rejections of [fetch] and of a read, which it lets through. *)
Definition spec_DownloadError (e : Error) : bool :=
  match e with
  | DownloadError _ | HostError FetchCall | HostError StreamRead => true
  | _ => false
  end.

End Fetcher.

Import Fetcher.

(** ** Pipeline orchestrator: [removeBackground] *)

Module Orchestrator.

(** An [HTMLImageElement]: its dimensions and its source. *)
Record Image := {
  img_width : nat;
  img_height : nat;
  src : string
}.

(** An inference session, created from the bytes of a model. *)
Record Session := { session_model : list Z }.

(** The collaborators of the class: image codec, canvas, network and
    inference engine. [None] stands for a rejected promise. *)
Record Host := {
  decodeBase64 : string -> option Image;            (* new Image(); img.src = base64 *)
  ort_loaded : bool;                                (* globalThis.ort.InferenceSession *)
  fetch : string -> option Response;                (* fetch(url) *)
  create_session : list Z -> option Session;        (* ort.InferenceSession.create *)
  context2d : bool;                                 (* canvas.getContext('2d') is not null *)
  getImageData_1024 : Image -> list Z;              (* drawImage(img, 0, 0, 1024, 1024) *)
  getImageData_native : Image -> list Z;            (* drawImage(img, 0, 0) *)
  session_run : Session -> Tensor -> option (list number);  (* (await run(feeds)).output.data *)
  toDataURL : ImageData -> string;                  (* canvas.toDataURL('image/png') *)
  canvasToImage : ImageData -> option Image;        (* new Image(); img.src = toDataURL *)
  now : Z                                           (* Date.now() *)
}.

(** A value other than a string or an image. *)
Inductive OtherValue :=
  | VNumber (n : number)
  | VBoolean (b : bool)
  | VUndefined
  | VNull
  | VObject.

(** The first argument of [removeBackground]. *)
Inductive Input :=
  | InString (base64 : string)     (* typeof imageOrBase64 === 'string' *)
  | InImage (img : Image)          (* imageOrBase64 instanceof window.Image *)
  | InOther (v : OtherValue).

Inductive Output :=
  | OutImage (img : Image)
  | OutBase64 (dataURL : string).

(** The fields of the instance, and the storage and the log of the
    accesses made, which all calls on the instance share. *)
Record Shared := {
  modelUrl : string;
  modelCacheKey : string;
  session : option Session;
  modelLoaded : bool;
  modelLoading : bool;
  idb : IndexedDB;
  io : list IOEvent
}.

(** [options.modelUrl || default]: a missing or empty string is falsy. *)
Definition or_default (o : option string) (d : string) : string :=
  match o with
  | Some EmptyString | None => d
  | Some s => s
  end.

Definition constructor (modelUrl modelCacheKey : option string) (idb : IndexedDB) : Shared :=
  {| modelUrl := or_default modelUrl
       "https://huggingface.co/briaai/RMBG-1.4/resolve/main/onnx/model.onnx";
     modelCacheKey := or_default modelCacheKey "rmbg_model_v1.4";
     session := None;
     modelLoaded := false;
     modelLoading := false;
     idb := idb;
     io := [] |}.

Definition set_session (s : Session) (sh : Shared) : Shared :=
  {| modelUrl := modelUrl sh; modelCacheKey := modelCacheKey sh;
     session := Some s;
     modelLoaded := modelLoaded sh; modelLoading := modelLoading sh;
     idb := idb sh; io := io sh |}.

Definition set_flags (loaded loading : bool) (sh : Shared) : Shared :=
  {| modelUrl := modelUrl sh; modelCacheKey := modelCacheKey sh;
     session := session sh;
     modelLoaded := loaded; modelLoading := loading;
     idb := idb sh; io := io sh |}.

Definition set_idb (db : IndexedDB) (sh : Shared) : Shared :=
  {| modelUrl := modelUrl sh; modelCacheKey := modelCacheKey sh;
     session := session sh;
     modelLoaded := modelLoaded sh; modelLoading := modelLoading sh;
     idb := db; io := io sh |}.

Definition log_io (evs : list IOEvent) (sh : Shared) : Shared :=
  {| modelUrl := modelUrl sh; modelCacheKey := modelCacheKey sh;
     session := session sh;
     modelLoaded := modelLoaded sh; modelLoading := modelLoading sh;
     idb := idb sh; io := io sh ++ evs |}.

(** Where a call of [removeBackground] is suspended: one constructor per
    [await] the call can wait at, with the local variables that are live
    there. *)
Inductive PC :=
  | Called (imageOrBase64 : Input)                  (* called, first segment not run yet *)
  | AwaitDecode (base64 : string)                   (* line 48 *)
  | AwaitCacheGet (img : Image)                     (* line 109, inside line 56 *)
  | AwaitCreateCached (img : Image) (cachedModel : list Z)   (* line 112 *)
  | AwaitDownload (img : Image)                     (* line 121 *)
  | AwaitCreate (img : Image) (modelBuffer : list Z)         (* line 123 *)
  | AwaitLoad (img : Image)                         (* line 56, the load has returned *)
  | Polling (img : Image)                           (* line 63 *)
  | AwaitPreprocess (img : Image) (r : Result Tensor)        (* line 70 *)
  | AwaitRun (img : Image) (s : Session) (inputTensor : Tensor)  (* line 73 *)
  | AwaitEncode (canvas : ImageData)                (* line 82 *)
  | Settled (r : Result Output).

(** One call: its option [return], its position and the progress events
    it has emitted so far. *)
Record Task := {
  return_base64 : bool;          (* opts.return === 'base64' *)
  pc : PC;
  trace : list ProgressEvent
}.

Definition goto (c : PC) (t : Task) : Task :=
  {| return_base64 := return_base64 t; pc := c; trace := trace t |}.

Definition emit_all (evs : list ProgressEvent) (t : Task) : Task :=
  {| return_base64 := return_base64 t; pc := pc t; trace := trace t ++ evs |}.

Definition emit (p : Z) (msg : string) (t : Task) : Task := emit_all [progress p msg] t.

Definition settle (r : Result Output) (t : Task) : Task := goto (Settled r) t.

Section Segments.

Variable host : Host.

(** The call [this._preprocessImage(img)]: its body runs synchronously. *)
Definition preprocess_call (img : Image) : Result Tensor :=
  if context2d host then Ok (_preprocessImage (getImageData_1024 host img))
  else Throw CanvasContextError.

(** The call [this._applyMask(img, mask)]. *)
Definition applyMask_call (img : Image) (maskData : list number) : Result ImageData :=
  if context2d host then
    if (img_width img =? 0) || (img_height img =? 0) then Throw (HostError GetImageData)
    else Ok (_applyMask {| width := img_width img; height := img_height img;
                           data := getImageData_native host img |} maskData)
  else Throw CanvasContextError.

(** Lines 68 to 70: the session check and the start of preprocessing. *)
Definition after_model (sh : Shared) (img : Image) (t : Task) : Task :=
  match session sh with
  | None => settle (Throw ModelNotLoaded) t
  | Some _ =>
      goto (AwaitPreprocess img (preprocess_call img))
           (emit 15 "Preprocessing image..." t)
  end.

(** Lines 54 to 67, entered with the decoded image; the first branch runs
    [_loadModelWithProgress] up to its first [await] (lines 108 and 109). *)
Definition check_model (sh : Shared) (img : Image) (t : Task) : Shared * Task :=
  if negb (modelLoaded sh) && negb (modelLoading sh) then
    (log_io (idb_io (idb sh)) (set_flags (modelLoaded sh) true sh),
     goto (AwaitCacheGet img) (emit 5 "Checking model cache..." t))
  else if negb (modelLoaded sh) && modelLoading sh then
    (sh, goto (Polling img) (emit 10 "Model is loading, please wait." t))
  else
    (sh, after_model sh img (emit 10 "Model already loaded." t)).

(** The code a call runs when the promise it waits for settles, up to its
    next [await]. *)
Definition resume (sh : Shared) (t : Task) : Shared * Task :=
  match pc t with
  | Called imageOrBase64 =>                                    (* lines 43 to 53 *)
      let t := emit 0 "Starting background removal..." t in
      match imageOrBase64 with
      | InString base64 =>
          (sh, goto (AwaitDecode base64) (emit 2 "Decoding base64 image..." t))
      | InImage img => check_model sh img t
      | InOther _ => (sh, settle (Throw InputTypeError) t)
      end
  | AwaitDecode base64 =>
      match decodeBase64 host base64 with
      | None => (sh, settle (Throw (HostError ImageDecode)) t)
      | Some img => check_model sh img t
      end
  | AwaitCacheGet img =>                                       (* lines 109 to 121 *)
      let '(r, db) := _getCachedModel (modelCacheKey sh) (idb sh) in
      let sh := set_idb db sh in
      match r with
      | Throw e => (sh, settle (Throw e) t)
      | Ok (Some cachedModel) =>
          let t := emit 15 "Loading cached model..." t in
          if ort_loaded host then (sh, goto (AwaitCreateCached img cachedModel) t)
          else (sh, settle (Throw (HostError OrtUndefined)) t)
      | Ok None =>
          let t := emit 10 "Downloading model..." t in
          if ort_loaded host then
            (log_io [NetFetch (modelUrl sh)] sh, goto (AwaitDownload img) t)
          else (sh, settle (Throw EngineUnavailableError) t)
      end
  | AwaitCreateCached img cachedModel =>                       (* lines 112 to 114 *)
      match create_session host cachedModel with
      | None => (sh, settle (Throw (HostError SessionCreate)) t)
      | Some s =>
          (set_session s sh, goto (AwaitLoad img) (emit 30 "Model loaded from cache." t))
      end
  | AwaitDownload img =>                          (* lines 134 to 164, then 122, 123 *)
      (* The awaits of the download are run as one segment: between them
         the call changes only its own variables, and the storage, which
         no call outside the load reads. *)
      let d := download_continue (fetch host (modelUrl sh)) (modelCacheKey sh)
                 (now host) (idb sh) in
      let sh := log_io (accesses d) (set_idb (idb_after d) sh) in
      let t := emit_all (emitted d) t in
      match outcome d with
      | Throw e => (sh, settle (Throw e) t)
      | Ok modelBuffer =>
          (sh, goto (AwaitCreate img modelBuffer) (emit 80 "Loading model..." t))
      end
  | AwaitCreate img modelBuffer =>                             (* lines 123 to 125 *)
      match create_session host modelBuffer with
      | None => (sh, settle (Throw (HostError SessionCreate)) t)
      | Some s => (set_session s sh, goto (AwaitLoad img) (emit 90 "Model loaded." t))
      end
  | AwaitLoad img =>                                           (* lines 57, 58, 68 to 70 *)
      let sh := set_flags true false sh in
      (sh, after_model sh img t)
  | Polling img =>                                             (* lines 62 to 64 *)
      if modelLoading sh then (sh, t) else (sh, after_model sh img t)
  | AwaitPreprocess img r =>                                   (* lines 70 to 73 *)
      match r with
      | Throw e => (sh, settle (Throw e) t)
      | Ok inputTensor =>
          match session sh with
          | None => (sh, settle (Throw (HostError SessionRun)) t)
          | Some s =>
              (sh, goto (AwaitRun img s inputTensor) (emit 35 "Running AI inference..." t))
          end
      end
  | AwaitRun img s inputTensor =>                              (* lines 73 to 85 *)
      match session_run host s inputTensor with
      | None => (sh, settle (Throw (HostError SessionRun)) t)
      | Some mask =>
          let t := emit 70 "Processing mask..." t in
          match applyMask_call img mask with
          | Throw e => (sh, settle (Throw e) t)
          | Ok canvas =>
              let t := emit 90 "Generating result..." t in
              if return_base64 t then
                (sh, settle (Ok (OutBase64 (toDataURL host canvas))) (emit 100 "Complete!" t))
              else (sh, goto (AwaitEncode canvas) t)
          end
      end
  | AwaitEncode canvas =>                                      (* lines 82 to 85 *)
      match canvasToImage host canvas with
      | None => (sh, settle (Throw (HostError ImageEncode)) t)
      | Some result => (sh, settle (Ok (OutImage result)) (emit 100 "Complete!" t))
      end
  | Settled _ => (sh, t)
  end.

(** *** Calls interleaved on one instance *)

Record State := {
  shared : Shared;
  tasks : list Task
}.

(** [removeBackground(imageOrBase64, opts)] is called. *)
Definition call (imageOrBase64 : Input) (base64 : bool) (s : State) : State :=
  {| shared := shared s;
     tasks := tasks s ++ [{| return_base64 := base64; pc := Called imageOrBase64; trace := [] |}] |}.

(** Call number [i] runs up to its next [await]. *)
Definition resume_task (i : nat) (s : State) : State :=
  match tasks s !! i with
  | None => s
  | Some t =>
      let '(sh, t') := resume (shared s) t in
      {| shared := sh; tasks := <[i := t']> (tasks s) |}
  end.

Inductive step : State -> State -> Prop :=
  | step_call imageOrBase64 base64 s : step s (call imageOrBase64 base64 s)
  | step_resume i s : step s (resume_task i s).

Definition reachable_from (s s' : State) : Prop := rtc step s s'.

(** The state after the first [n] steps of a schedule. *)
Fixpoint run (sched : nat -> nat) (s : State) (n : nat) : State :=
  match n with
  | 0 => s
  | S n => resume_task (sched n) (run sched s n)
  end.

(** A single call, resumed [fuel] times with no other call around. *)
Definition run_alone (fuel : nat) (imageOrBase64 : Input) (base64 : bool)
    (sh : Shared) : State :=
  run (fun _ => 0) (call imageOrBase64 base64 {| shared := sh; tasks := [] |}) fuel.

End Segments.

(** Every one of the first [n] calls is resumed again and again. *)
Definition fair (n : nat) (sched : nat -> nat) : Prop :=
  forall i t, i < n -> exists t', t <= t' /\ sched t' = i.

(** The positions inside [_loadModelWithProgress], and the one where the
    load has returned and the flags are about to be updated. *)
Definition in_load (c : PC) : bool :=
  match c with
  | AwaitCacheGet _ | AwaitCreateCached _ _ | AwaitDownload _
  | AwaitCreate _ _ | AwaitLoad _ => true
  | _ => false
  end.

Definition is_fetch (e : IOEvent) : bool :=
  match e with NetFetch _ => true | IdbOpen => false end.

Definition loads_in_flight (s : State) : nat :=
  length (filter (fun t => in_load (pc t) = true) (tasks s)).

Definition downloads (s : State) : nat :=
  length (filter (fun e => is_fetch e = true) (io (shared s))).

Definition succeeded (t : Task) : Prop := exists out, pc t = Settled (Ok out).

(** The positions of the load that precede the call of [fetch]. *)
Definition before_fetch (c : PC) : bool :=
  match c with
  | AwaitCacheGet _ | AwaitCreateCached _ _ => true
  | _ => false
  end.

(** The positions of the load that follow the call of [fetch]. *)
Definition after_fetch (c : PC) : bool :=
  match c with
  | AwaitDownload _ | AwaitCreate _ _ => true
  | _ => false
  end.

Definition flags (sh : Shared) : bool * bool := (modelLoaded sh, modelLoading sh).

Definition fetches (sh : Shared) : nat :=
  length (filter (fun e => is_fetch e = true) (io sh)).

(** The positions inside [_loadModelWithProgress], whose promise has not
    settled yet. *)
Definition inside_load (c : PC) : bool := before_fetch c || after_fetch c.

(** The state a rejected load leaves behind: [modelLoading] is set and no
    call is there to reset it. *)
Definition blocked (s : State) : Prop :=
  flags (shared s) = (false, true) /\
  forall j tj, tasks s !! j = Some tj -> in_load (pc tj) = false.

(** Every call that is polling in [s] is still polling in [s']. *)
Definition polling_kept (s s' : State) : Prop :=
  forall j tj img, tasks s !! j = Some tj -> pc tj = Polling img ->
    exists tj', tasks s' !! j = Some tj' /\ pc tj' = Polling img.

(** At most one call is inside the load. *)
Definition at_most_one_load (s : State) : Prop :=
  forall i j ti tj,
    tasks s !! i = Some ti -> tasks s !! j = Some tj ->
    in_load (pc ti) = true -> in_load (pc tj) = true -> i = j.

(** The flags of the instance agree with the positions of its calls. *)
Record coherent (s : State) : Prop := {
  coh_unique : at_most_one_load s;
  coh_loader_flags : forall i t,
    tasks s !! i = Some t -> in_load (pc t) = true -> flags (shared s) = (false, true);
  coh_flags : flags (shared s) <> (true, true);
  coh_idle : flags (shared s) = (false, false) -> fetches (shared s) = 0;
  coh_fetches : fetches (shared s) <= 1;
  coh_before_fetch : forall i t,
    tasks s !! i = Some t -> before_fetch (pc t) = true -> fetches (shared s) = 0
}.


Definition initial (sh : Shared) : State := {| shared := sh; tasks := [] |}.

(** A host on which no operation of the pipeline past the model load
    fails: the canvas has a 2D context, the engine runs every session and
    every canvas can be turned into an image. *)
Record pipeline_ok (host : Host) : Prop := {
  ok_context2d : context2d host = true;
  ok_session_run : forall s inputTensor, is_Some (session_run host s inputTensor);
  ok_canvasToImage : forall canvas, is_Some (canvasToImage host canvas)
}.

(** A host on which, moreover, the engine is present and creates a session
    from any buffer, and the model can be downloaded in full. *)
Record healthy (host : Host) (url : string) : Prop := {
  ok_pipeline : pipeline_ok host;
  ok_ort : ort_loaded host = true;
  ok_create_session : forall modelBuffer, is_Some (create_session host modelBuffer);
  ok_fetch : exists r stream,
      fetch host url = Some r /\ ok r = true /\ body r = Some stream /\
      stream_completes stream = true
}.

Definition nonempty (img : Image) : Prop := 0 < img_width img /\ 0 < img_height img.

(** An input the call accepts and can decode to an image with pixels. *)
Definition valid_input (host : Host) (input : Input) : Prop :=
  match input with
  | InImage img => nonempty img
  | InString base64 => exists img, decodeBase64 host base64 = Some img /\ nonempty img
  | InOther _ => False
  end.

(** The state of one call run alone: the instance and the call. *)
Definition resume_n (host : Host) (n : nat) (sh : Shared) (t : Task) : Shared * Task :=
  Nat.iter n (fun p => resume host p.1 p.2) (sh, t).

Definition new_task (imageOrBase64 : Input) (base64 : bool) : Task :=
  {| return_base64 := base64; pc := Called imageOrBase64; trace := [] |}.

(** The segments a call runs before it looks at the flags of the
    instance, and the percentages it emits in them. *)
Definition start_steps (imageOrBase64 : Input) : nat :=
  match imageOrBase64 with InString _ => 2 | _ => 1 end.

Definition start_percents (imageOrBase64 : Input) : list Z :=
  match imageOrBase64 with InString _ => [0; 2]%Z | _ => [0]%Z end.

(** The cache holds no model under the key of the instance. *)
Definition cache_miss (sh : Shared) : Prop :=
  (_getCachedModel (modelCacheKey sh) (idb sh)).1 = Ok None.

(** The model is loaded, after one download. *)
Definition ready (sh : Shared) : Prop :=
  flags sh = (true, false) /\ is_Some (session sh) /\ fetches sh = 1.

(** What holds of a call at each position when the host is healthy, the
    inputs are valid and the cache was empty at the start. *)
Definition task_sound (host : Host) (sh : Shared) (t : Task) : Prop :=
  match pc t with
  | Called imageOrBase64 => valid_input host imageOrBase64
  | AwaitDecode base64 => valid_input host (InString base64)
  | AwaitCacheGet img => nonempty img /\ cache_miss sh /\ fetches sh = 0
  | AwaitCreateCached _ _ => False
  | AwaitDownload img => nonempty img /\ fetches sh = 1
  | AwaitCreate img _ => nonempty img /\ fetches sh = 1
  | AwaitLoad img => nonempty img /\ is_Some (session sh) /\ fetches sh = 1
  | Polling img => nonempty img /\ flags sh <> (false, false)
  | AwaitPreprocess img r => nonempty img /\ r = preprocess_call host img /\ ready sh
  | AwaitRun img _ _ => nonempty img /\ ready sh
  | AwaitEncode _ => ready sh
  | Settled r => (exists out, r = Ok out) /\ ready sh
  end.

Record sound (host : Host) (s : State) : Prop := {
  snd_coherent : coherent s;
  snd_healthy : healthy host (modelUrl (shared s));
  snd_tasks : forall i t, tasks s !! i = Some t -> task_sound host (shared s) t;
  snd_loading : flags (shared s) = (false, true) ->
                exists i t, tasks s !! i = Some t /\ in_load (pc t) = true;
  snd_ready : flags (shared s) = (true, false) -> ready (shared s);
  snd_idle : flags (shared s) = (false, false) ->
             cache_miss (shared s) /\ fetches (shared s) = 0
}.

(** A bound on the segments a call has left to run. *)
Definition rank (c : PC) : nat :=
  match c with
  | Called _ => 12
  | AwaitDecode _ => 11
  | AwaitCacheGet _ => 10
  | AwaitCreateCached _ _ => 9
  | AwaitDownload _ => 9
  | AwaitCreate _ _ => 8
  | AwaitLoad _ => 7
  | Polling _ => 5
  | AwaitPreprocess _ _ => 4
  | AwaitRun _ _ _ => 3
  | AwaitEncode _ => 2
  | Settled _ => 0
  end.

Definition total_rank (s : State) : nat := sum_list ((fun t => rank (pc t)) <$> tasks s).

End Orchestrator.

Import Orchestrator.

(** ** The functions without progress reporting *)

(** [await response.arrayBuffer()]: all the bytes of the body; a null body
    reads as no bytes, a failing read rejects. *)
Definition arrayBuffer (r : Response) : Result (list Z) :=
  match body r with
  | None => Ok []
  | Some stream =>
      if stream_completes stream then Ok (concat (stream_chunks stream))
      else Throw (HostError StreamRead)
  end.

(** [_downloadAndCacheModel]: the download in one piece, with no test of
    the body and no progress event; the cache write of line 246 is awaited
    in the same way. *)
Definition _downloadAndCacheModel (fetch : string -> option Response)
    (modelUrl modelCacheKey : string) (now : Z) (idb : IndexedDB) : Download :=
  let failed e :=
    {| outcome := Throw e; idb_after := idb; emitted := [];
       accesses := [NetFetch modelUrl] |} in
  match fetch modelUrl with
  | None => failed (HostError FetchCall)
  | Some response =>
      if negb (ok response) then failed (DownloadError "Model download failed")
      else
        match arrayBuffer response with
        | Throw e => failed e
        | Ok buffer =>
            let modelBuffer := buffer in
            match _cacheModel modelCacheKey now modelBuffer idb with      (* line 246 *)
            | (Throw e, idb') =>
                {| outcome := Throw e; idb_after := idb'; emitted := [];
                   accesses := NetFetch modelUrl :: idb_io idb |}
            | (Ok _, idb') =>
                {| outcome := Ok modelBuffer; idb_after := idb'; emitted := [];
                   accesses := NetFetch modelUrl :: idb_io idb |}
            end
        end
  end.

(** [_loadModel]: the load without progress events, run on its own. *)
Definition _loadModel (host : Host) (sh : Shared) : Result unit * Shared :=
  let sh := log_io (idb_io (idb sh)) sh in           (* indexedDB.open of line 207 *)
  let '(r, db) := _getCachedModel (modelCacheKey sh) (idb sh) in
  let sh := set_idb db sh in
  match r with
  | Throw e => (Throw e, sh)
  | Ok (Some cachedModel) =>
      if ort_loaded host then
        match create_session host cachedModel with
        | None => (Throw (HostError SessionCreate), sh)
        | Some s => (Ok (), set_session s sh)
        end
      else (Throw (HostError OrtUndefined), sh)
  | Ok None =>
      if ort_loaded host then
        let d := _downloadAndCacheModel (fetch host) (modelUrl sh) (modelCacheKey sh)
                   (now host) (idb sh) in
        let sh := log_io (accesses d) (set_idb (idb_after d) sh) in
        match outcome d with
        | Throw e => (Throw e, sh)
        | Ok modelBuffer =>
            match create_session host modelBuffer with
            | None => (Throw (HostError SessionCreate), sh)
            | Some s => (Ok (), set_session s sh)
            end
        end
      else (Throw EngineUnavailableError, sh)
  end.

(** ** Notions used in the further properties *)

(** Every element differs from the one before it, the one before the
    first being [last]. *)
Fixpoint adjacent_differ (last : number) (l : list number) : bool :=
  match l with
  | [] => true
  | p :: l => number_neq p last && adjacent_differ p l
  end.

(** A mask value that [alpha || 0] replaces by 0. *)
Definition falsy (v : number) : bool :=
  match v with
  | S754_nan | S754_zero _ => true
  | _ => false
  end.

(** The first and the last event of a call that resolves. *)
Definition start_event : ProgressEvent := progress 0 "Starting background removal...".
Definition complete_event : ProgressEvent := progress 100 "Complete!".

(** The event 100, by its message: the download can emit the percentage
    100 too, when the length announced is wrong. *)
Definition is_complete (ev : ProgressEvent) : bool :=
  match message ev with
  | Text s => String.eqb s "Complete!"
  | Downloading _ _ => false
  end.

Definition incomplete (evs : list ProgressEvent) : bool :=
  forallb (fun ev => negb (is_complete ev)) evs.

(** The events of a call, by its position: none before it starts, the
    start event first from then on, and the event 100 last when it has
    resolved and nowhere otherwise. *)
Definition bracketed (t : Task) : Prop :=
  match pc t with
  | Called _ => trace t = []
  | Settled (Ok _) =>
      exists evs, trace t = start_event :: evs ++ [complete_event] /\ incomplete evs = true
  | _ => exists evs, trace t = start_event :: evs /\ incomplete evs = true
  end.

(** The shared state is the one of [s0] and no call is inside a load. *)
Definition frozen_at (s0 s : State) : Prop :=
  shared s = shared s0 /\ forall j tj, tasks s !! j = Some tj -> in_load (pc tj) = false.

(** What the session check of line 68 relies on, position by position. *)
Definition task_kept (sh : Shared) (t : Task) : Prop :=
  match pc t with
  | AwaitLoad _ => is_Some (session sh)
  | Polling _ => flags sh <> (false, false)
  | AwaitPreprocess _ r => r <> Throw ModelNotLoaded
  | Settled r => r <> Throw ModelNotLoaded
  | _ => True
  end.

Record session_kept (s : State) : Prop := {
  sk_loaded : modelLoaded (shared s) = true -> is_Some (session (shared s));
  sk_tasks : forall i t, tasks s !! i = Some t -> task_kept (shared s) t
}.

(** Small inputs used in the examples below. *)
Definition ex_one : number := of_Z 1.
Definition ex_mask5 : list number := [ex_one; ex_one; ex_one; ex_one; ex_one].
Definition ex_mask4 : list number := [ex_one; ex_one; ex_one; ex_one].
Definition ex_image2 : ImageData :=
  {| width := 2; height := 2;
     data := [1; 2; 3; 4; 5; 6; 7; 8; 9; 10; 11; 12; 13; 14; 15; 16]%Z |}.

(** A response whose body is twice as long as its content-length header
    announces, as happens when the header counts the compressed bytes. *)
Definition ex_response_over : Response :=
  {| ok := true;
     body := Some (Chunk (replicate 20 0%Z) Done);
     content_length := Some 10%Z |}.

Definition ex_response : Response :=
  {| ok := true;
     body := Some (Chunk [1; 2; 3]%Z (Chunk [4; 5]%Z (Chunk [6]%Z Done)));
     content_length := Some 6%Z |}.

(** A response with status ok and a body whose second read rejects, as
    when the connection drops. *)
Definition ex_response_dropped : Response :=
  {| ok := true;
     body := Some (Chunk [1; 2; 3]%Z ReadFails);
     content_length := Some 6%Z |}.

(** The percentages a call emits when it runs alone for [fuel] segments. *)
Definition percents_alone (host : Host) (fuel : nat) (input : Input) (b : bool)
    (sh : Shared) : list (list number) :=
  (fun t => percents (trace t)) <$> tasks (run_alone host fuel input b sh).

Definition ex_img : Image := {| img_width := 2; img_height := 2; src := "cat.png" |}.

(** A host on which every operation succeeds. *)
Definition ex_host : Host :=
  {| decodeBase64 := fun _ => Some ex_img;
     ort_loaded := true;
     fetch := fun _ => Some ex_response;
     create_session := fun modelBuffer => Some {| session_model := modelBuffer |};
     context2d := true;
     getImageData_1024 := fun _ => replicate (4 * canvas_pixels) 255%Z;
     getImageData_native := fun _ => data ex_image2;
     session_run := fun _ _ => Some ex_mask4;
     toDataURL := fun _ => "data:image/png;base64,AAAA";
     canvasToImage := fun _ => Some ex_img;
     now := 1000 |}.

(** A host on which the download of the model fails. *)
Definition ex_host_offline : Host :=
  {| decodeBase64 := decodeBase64 ex_host;
     ort_loaded := true;
     fetch := fun _ => None;
     create_session := create_session ex_host;
     context2d := true;
     getImageData_1024 := getImageData_1024 ex_host;
     getImageData_native := getImageData_native ex_host;
     session_run := session_run ex_host;
     toDataURL := toDataURL ex_host;
     canvasToImage := canvasToImage ex_host;
     now := 1000 |}.

(** A host that decodes no image, and one without the inference engine. *)
Definition ex_host_undecodable : Host :=
  {| decodeBase64 := fun _ => None;
     ort_loaded := true;
     fetch := fetch ex_host;
     create_session := create_session ex_host;
     context2d := true;
     getImageData_1024 := getImageData_1024 ex_host;
     getImageData_native := getImageData_native ex_host;
     session_run := session_run ex_host;
     toDataURL := toDataURL ex_host;
     canvasToImage := canvasToImage ex_host;
     now := 1000 |}.

Definition ex_host_no_engine : Host :=
  {| decodeBase64 := decodeBase64 ex_host;
     ort_loaded := false;
     fetch := fetch ex_host;
     create_session := fun _ => None;
     context2d := true;
     getImageData_1024 := getImageData_1024 ex_host;
     getImageData_native := getImageData_native ex_host;
     session_run := session_run ex_host;
     toDataURL := toDataURL ex_host;
     canvasToImage := canvasToImage ex_host;
     now := 1000 |}.

(** A new instance with the default options, on a page that has never
    stored the model, and one on a page that has. *)
Definition ex_fresh : Shared := constructor None None NotCreated.

Definition ex_cached : Shared :=
  constructor None None
    (Opened {[ "rmbg_model_v1.4" :=
                 {| entry_data := [1; 2; 3]%Z; timestamp := 5; version := "1.4" |} ]}).

(** A call on a new instance, suspended where its download is awaited. *)
Definition ex_loading : State :=
  resume_task ex_host_offline 0
    (resume_task ex_host_offline 0 (call (InImage ex_img) false (initial ex_fresh))).

(** The fields of an instance while a call loads the model, and once the
    model is loaded. *)
Definition ex_shared_loading : Shared := set_flags false true ex_fresh.

Definition ex_shared_ready : Shared :=
  set_flags true false (set_session {| session_model := [1; 2; 3]%Z |} ex_cached).

(** The instance after a first call that found the model in the cache. *)
Definition ex_loaded : State := run_alone ex_host 7 (InImage ex_img) true ex_cached.

(** * Properties *)

(** ** Arrays updated by a sequence of stores *)

Section Stores.

Lemma foldl_bind {A B C} (g : C -> B -> C) (f : A -> list B) (l : list A) (c : C) :
  foldl g c (l ≫= f) = foldl (fun c a => foldl g c (f a)) c l.
Proof.
  revert c. induction l as [|a l IH]; intros c; [done|].
  change ((a :: l) ≫= f) with (f a ++ (l ≫= f)).
  rewrite foldl_app. apply IH.
Qed.

Lemma fmap_bind_list {A B C} (f : B -> C) (g : A -> list B) (l : list A) :
  f <$> (l ≫= g) = l ≫= (fun a => f <$> g a).
Proof.
  induction l as [|a l IH]; [done|].
  by rewrite !bind_cons, fmap_app, IH.
Qed.

Lemma foldl_ext_in {A B} (f g : B -> A -> B) (l : list A) (b : B) :
  (forall b a, a ∈ l -> f b a = g b a) -> foldl f b l = foldl g b l.
Proof.
  revert b. induction l as [|a l IH]; intros b Hfg; [done|]. simpl.
  rewrite Hfg by left. apply IH. intros b' a' Ha'. apply Hfg. by right.
Qed.

Lemma foldl_store_length (ws : list (nat * Z)) (d : list Z) :
  length (foldl store d ws) = length d.
Proof.
  revert d. induction ws as [|[i v] ws IH]; intros d; [done|]. simpl.
  rewrite IH. unfold store. apply length_insert.
Qed.

Lemma foldl_store_notin (ws : list (nat * Z)) (d : list Z) (k : nat) :
  k ∉ ws.*1 -> foldl store d ws !! k = d !! k.
Proof.
  revert d. induction ws as [|[i v] ws IH]; intros d Hk; [done|].
  simpl in *. apply not_elem_of_cons in Hk as [Hne Hk].
  rewrite IH by done. unfold store. simpl. by apply list_lookup_insert_ne.
Qed.

Lemma foldl_store_in (ws : list (nat * Z)) (d : list Z) (i : nat) (v : Z) :
  NoDup ws.*1 -> (i, v) ∈ ws -> i < length d ->
  foldl store d ws !! i = Some v.
Proof.
  revert d. induction ws as [|[i0 v0] ws IH]; intros d Hnd Hin Hlt.
  - by apply elem_of_nil in Hin.
  - simpl in *. apply NoDup_cons in Hnd as [Hhd Hnd].
    apply elem_of_cons in Hin as [Heq|Hin].
    + injection Heq as -> ->.
      rewrite foldl_store_notin by done.
      unfold store. simpl. by apply list_lookup_insert_eq.
    + apply IH; [done..|]. unfold store. by rewrite length_insert.
Qed.

End Stores.

(** ** The loops of [_applyMask] *)

Section ApplyMask.

Variable maskData : list number.
Variables w h : nat.

Lemma applyMask_loop_stores (d : list Z) :
  applyMask_loop maskData w h d = foldl store d (alpha_writes maskData w h).
Proof.
  unfold alpha_writes, applyMask_loop. rewrite foldl_bind.
  apply foldl_ext_in. intros b y _.
  rewrite foldl_bind. reflexivity.
Qed.

Lemma row_positions (a b n : nat) :
  (x ← seq b n; [a + x]) = seq (a + b) n.
Proof.
  revert b. induction n as [|n IH]; intros b; [done|].
  simpl. f_equal. rewrite <- Nat.add_succ_r. apply IH.
Qed.

Lemma pixel_positions (a n : nat) :
  (y ← seq a n; x ← seq 0 w; [y * w + x]) = seq (a * w) (n * w).
Proof.
  revert a. induction n as [|n IH]; intros a; [done|].
  change (seq a (S n)) with (a :: seq (S a) n).
  rewrite bind_cons, IH, row_positions.
  replace (S n * w) with (w + n * w) by lia.
  rewrite seq_app. f_equal; [f_equal; lia|f_equal; lia].
Qed.

Lemma alpha_writes_positions :
  (alpha_writes maskData w h).*1 = (fun k => k * 4 + 3) <$> seq 0 (h * w).
Proof.
  change (seq 0 (h * w)) with (seq (0 * w) (h * w)).
  rewrite <- (pixel_positions 0 h). unfold alpha_writes.
  rewrite !fmap_bind_list. apply list_bind_ext; [|done]. intros y.
  rewrite !fmap_bind_list. apply list_bind_ext; [|done]. by intros x.
Qed.

Lemma alpha_writes_length : length (alpha_writes maskData w h) = w * h.
Proof.
  rewrite <- (length_fmap fst), alpha_writes_positions.
  rewrite length_fmap, length_seq. lia.
Qed.

Lemma alpha_writes_NoDup : NoDup (alpha_writes maskData w h).*1.
Proof.
  rewrite alpha_writes_positions. apply NoDup_fmap_2; [|apply NoDup_seq].
  intros a b. lia.
Qed.

Lemma elem_of_alpha_writes (i : nat) (v : Z) :
  (i, v) ∈ alpha_writes maskData w h <->
  exists x y, x < w /\ y < h /\ i = (y * w + x) * 4 + 3 /\ v = mask_alpha maskData w h x y.
Proof.
  unfold alpha_writes. rewrite list_elem_of_bind. split.
  - intros (y & Hx & Hy). apply list_elem_of_bind in Hx as (x & Hiv & Hx).
    apply list_elem_of_singleton in Hiv. injection Hiv as -> ->.
    apply elem_of_seq in Hx, Hy. exists x, y. repeat split; lia.
  - intros (x & y & Hx & Hy & -> & ->). exists y. split.
    + apply list_elem_of_bind. exists x. split; [by apply list_elem_of_singleton|].
      apply elem_of_seq. lia.
    + apply elem_of_seq. lia.
Qed.

End ApplyMask.

Lemma ToUint8Clamp_byte (x : number) : is_byte (ToUint8Clamp x).
Proof.
  unfold is_byte, ToUint8Clamp.
  destruct x as [s|s| |s m e]; [destruct s; lia|destruct s; lia|lia|].
  destruct s; [lia|].
  destruct (0 <=? e)%Z eqn:He.
  - apply Z.leb_le in He.
    assert (0 <= Z.pos m * 2 ^ e)%Z by (apply Z.mul_nonneg_nonneg; [lia|by apply Z.pow_nonneg]).
    lia.
  - apply Z.leb_gt in He.
    assert (0 < 2 ^ (- e))%Z as Hd by (apply Z.pow_pos_nonneg; lia).
    assert (0 <= Z.pos m / 2 ^ (- e))%Z as Hf by (apply Z.div_pos; lia).
    cbv zeta.
    destruct (2 * (Z.pos m mod 2 ^ (- e)) ?= 2 ^ (- e))%Z; [destruct (Z.even _)|..]; lia.
Qed.

Lemma mask_alpha_byte (maskData : list number) (w h x y : nat) :
  is_byte (mask_alpha maskData w h x y).
Proof. apply ToUint8Clamp_byte. Qed.

(** When the square root of the length is integral, the cell the code
    selects is the cell the specification names. *)
Lemma mask_alpha_square (maskData : list number) (w h x y : nat) :
  Math_floor (Math_sqrt (of_nat (length maskData))) = Math_sqrt (of_nat (length maskData)) ->
  mask_alpha maskData w h x y = spec_mask_alpha maskData w h x y.
Proof. intros Hsq. unfold mask_alpha, spec_mask_alpha. by rewrite Hsq. Qed.

(** [Math.sqrt] is exact on the squares M * M up to the side 1024 of the
    model's mask, and such a side is its own floor: checked on each M. *)
Lemma sqrt_square_exact (M : Z) :
  (0 <= M <= 1024)%Z ->
  Math_sqrt (of_Z (M * M)) = of_Z M /\ Math_floor (of_Z M) = of_Z M.
Proof.
  intros HM.
  assert (forallb (fun k => bool_decide (Math_sqrt (of_Z (Z.of_nat k * Z.of_nat k))
                                          = of_Z (Z.of_nat k))
                            && bool_decide (Math_floor (of_Z (Z.of_nat k)) = of_Z (Z.of_nat k)))
            (seq 0 1025) = true) as Hall by (vm_compute; reflexivity).
  rewrite forallb_forall in Hall. specialize (Hall (Z.to_nat M)).
  rewrite Z2Nat.id in Hall by lia.
  assert (In (Z.to_nat M) (seq 0 1025)) as Hin by (apply in_seq; lia).
  apply Hall, andb_prop in Hin as [H1 H2].
  by apply bool_decide_eq_true in H1, H2.
Qed.

(** On a square mask of side up to 1024 the cell the code selects is the
    cell the specification names. *)
Lemma mask_alpha_square_mask (maskData : list number) (M : Z) (w h x y : nat) :
  (0 <= M <= 1024)%Z -> Z.of_nat (length maskData) = (M * M)%Z ->
  mask_alpha maskData w h x y = spec_mask_alpha maskData w h x y.
Proof.
  intros HM Hlen. apply mask_alpha_square. unfold of_nat. rewrite Hlen.
  destruct (sqrt_square_exact M HM) as [-> ->]. done.
Qed.

(** C1, as amended. For every image of dimensions width by height whose
    pixel buffer holds four bytes per pixel, every mask tensor and every
    pixel (x, y), [_applyMask] leaves in the alpha byte of that pixel the
    clamped 8-bit store of round(value * 255), where value is the mask
    element at index maskY * M + maskX (0 when that element is absent,
    which includes every non-integral index), maskX = floor(x / width * M),
    maskY = floor(y / height * M) and M = sqrt(len(maskData)), not floored. *)
Theorem applyMask_alpha_channel (im : ImageData) (maskData : list number) (x y : nat) :
  length (data im) = 4 * (width im * height im) ->
  x < width im -> y < height im ->
  let M := Math_sqrt (of_nat (length maskData)) in
  let maskX := Math_floor (mul (div (of_nat x) (of_nat (width im))) M) in
  let maskY := Math_floor (mul (div (of_nat y) (of_nat (height im))) M) in
  let value := or_zero (typed_get maskData (add (mul maskY M) maskX)) in
  data (_applyMask im maskData) !! ((y * width im + x) * 4 + 3)
  = Some (ToUint8Clamp (Math_round (mul value (of_Z 255)))).
Proof.
  intros Hlen Hx Hy. cbv zeta. simpl.
  rewrite applyMask_loop_stores.
  apply foldl_store_in.
  - apply alpha_writes_NoDup.
  - apply elem_of_alpha_writes. exists x, y. by repeat split.
  - rewrite Hlen. nia.
Qed.

Lemma applyMask_alpha_channel_witness :
  data (_applyMask ex_image2 ex_mask4) !! ((1 * 2 + 1) * 4 + 3)
  = Some (ToUint8Clamp (Math_round (mul
      (or_zero (typed_get ex_mask4
         (add (mul (Math_floor (mul (div (of_nat 1) (of_nat 2)) (Math_sqrt (of_nat 4))))
                   (Math_sqrt (of_nat 4)))
              (Math_floor (mul (div (of_nat 1) (of_nat 2)) (Math_sqrt (of_nat 4)))))))
      (of_Z 255)))).
Proof.
  apply (applyMask_alpha_channel ex_image2 ex_mask4 1 1); simpl; lia.
Defined.

(** C1, as stated, fails: on a 2 by 2 image and a mask of five ones the
    code makes pixel (1, 1) transparent, where the floored side M = 2
    selects cell 3 and gives alpha 255. *)
Lemma applyMask_floor_counterexample :
  data (_applyMask ex_image2 ex_mask5) !! ((1 * 2 + 1) * 4 + 3) = Some 0%Z /\
  spec_mask_alpha ex_mask5 2 2 1 1 = 255%Z.
Proof. split; vm_compute; reflexivity. Qed.

(** C4. For every image whose pixel buffer holds four bytes per pixel and
    every mask tensor, [_applyMask] performs exactly width * height stores,
    at pairwise distinct alpha positions inside the buffer, each value a
    byte in [0,255]; the dimensions and the length of the buffer are kept,
    and every byte that is not an alpha byte (every R, G and B byte) is
    the byte of the input image. *)
Theorem applyMask_frame (im : ImageData) (maskData : list number) :
  length (data im) = 4 * (width im * height im) ->
  let out := _applyMask im maskData in
  let writes := alpha_writes maskData (width im) (height im) in
  data out = foldl store (data im) writes /\
  length writes = width im * height im /\
  NoDup writes.*1 /\
  Forall (fun iv => iv.1 mod 4 = 3 /\ iv.1 < length (data im) /\ is_byte iv.2) writes /\
  width out = width im /\ height out = height im /\
  length (data out) = length (data im) /\
  forall k, k mod 4 <> 3 -> data out !! k = data im !! k.
Proof.
  intros Hlen. cbv zeta. simpl. rewrite applyMask_loop_stores.
  split; [done|]. split; [apply alpha_writes_length|].
  split; [apply alpha_writes_NoDup|].
  assert (Forall (fun iv : nat * Z => iv.1 mod 4 = 3 /\ iv.1 < length (data im) /\ is_byte iv.2)
            (alpha_writes maskData (width im) (height im))) as Hall.
  { apply Forall_forall. intros [i v] Hin.
    apply elem_of_alpha_writes in Hin as (x & y & Hx & Hy & -> & ->). cbn [fst snd].
    split; [|split; [rewrite Hlen; nia|apply mask_alpha_byte]].
    by rewrite Nat.add_comm, Nat.Div0.mod_add. }
  split; [done|]. split; [done|]. split; [done|].
  split; [apply foldl_store_length|].
  intros k Hk. apply foldl_store_notin.
  intros Hin. apply list_elem_of_fmap in Hin as ([i v] & -> & Hin).
  rewrite Forall_forall in Hall. apply Hall in Hin as [Hmod _]. done.
Qed.

Lemma applyMask_frame_witness :
  data (_applyMask ex_image2 ex_mask4) = foldl store (data ex_image2) (alpha_writes ex_mask4 2 2) /\
  length (alpha_writes ex_mask4 2 2) = 2 * 2 /\
  forall k, k mod 4 <> 3 -> data (_applyMask ex_image2 ex_mask4) !! k = data ex_image2 !! k.
Proof.
  destruct (applyMask_frame ex_image2 ex_mask4) as (H1 & H2 & _ & _ & _ & _ & _ & H8).
  - simpl. lia.
  - exact (conj H1 (conj H2 H8)).
Defined.

(** ** The loop of [_preprocessImage] *)

Section Preprocess.

Variable n : nat.
Variable d : list Z.

Lemma preprocess_body_length (t : list float32) (i : nat) :
  length (preprocess_body n d t i) = length t.
Proof. unfold preprocess_body. by rewrite !length_insert. Qed.

Lemma preprocess_upto_length (k : nat) : length (preprocess_upto n d k) = 3 * n.
Proof.
  unfold preprocess_upto. induction k as [|k IH].
  - simpl. rewrite length_replicate. lia.
  - rewrite seq_S, foldl_snoc, preprocess_body_length. exact IH.
Qed.

(** Loop invariant: the three planes are filled up to column [k]. *)
Lemma preprocess_upto_lookup (k c i : nat) :
  k <= n -> c < 3 -> i < k ->
  preprocess_upto n d k !! (c * n + i) = Some (fround (normalized d (i * 4 + c))).
Proof.
  intros Hk Hc. revert i. induction k as [|k IH]; intros i Hi; [lia|].
  unfold preprocess_upto in *. rewrite seq_S, foldl_snoc.
  change (0 + k) with k.
  pose proof (preprocess_upto_length k) as Hlen. unfold preprocess_upto in Hlen.
  specialize (IH ltac:(lia)).
  set (t := foldl _ _ (seq 0 k)) in *. clearbody t.
  unfold preprocess_body.
  destruct (decide (i = k)) as [->|Hne].
  - destruct c as [|[|[|c]]]; [| | |lia].
    + replace (0 * n + k) with k by lia. replace (k * 4 + 0) with (k * 4) by lia.
      do 2 (rewrite list_lookup_insert_ne by lia).
      apply list_lookup_insert_eq. lia.
    + replace (1 * n + k) with (n + k) by lia.
      rewrite list_lookup_insert_ne by lia.
      apply list_lookup_insert_eq. rewrite length_insert. lia.
    + apply list_lookup_insert_eq. rewrite !length_insert. lia.
  - rewrite !list_lookup_insert_ne; [apply IH; lia|..];
      destruct c as [|[|[|c]]]; lia.
Qed.

Lemma preprocess_loop_lookup (c i : nat) :
  c < 3 -> i < n ->
  preprocess_loop n d !! (c * n + i) = Some (fround (normalized d (i * 4 + c))).
Proof. intros. by apply (preprocess_upto_lookup n). Qed.

Lemma preprocess_loop_length : length (preprocess_loop n d) = 3 * n.
Proof. apply (preprocess_upto_length n). Qed.

End Preprocess.

(** A byte divided by 255.0 and stored as a binary32 float lies in the
    unit interval: checked on each of the 256 bytes. *)
Lemma normalized_byte_in_unit (b : Z) :
  is_byte b -> f32_in_unit (fround (div (of_Z b) (of_Z 255))) = true.
Proof.
  intros Hb.
  assert (forallb (fun k => f32_in_unit (fround (div (of_nat k) (of_Z 255)))) (seq 0 256) = true)
    as Hall by (vm_compute; reflexivity).
  rewrite forallb_forall in Hall.
  specialize (Hall (Z.to_nat b)). unfold of_nat in Hall.
  unfold is_byte in Hb. rewrite Z2Nat.id in Hall by lia.
  apply Hall, in_seq. lia.
Qed.

(** The loop reads the red, green and blue bytes only. *)
Lemma preprocess_loop_rgb_only (n : nat) (d d' : list Z) :
  (forall k, k mod 4 <> 3 -> d' !! k = d !! k) ->
  preprocess_loop n d' = preprocess_loop n d.
Proof.
  intros Hrgb. unfold preprocess_loop. apply foldl_ext_in. intros t i _.
  assert (forall c, c < 3 -> normalized d' (i * 4 + c) = normalized d (i * 4 + c)) as Hn.
  { intros c Hc. unfold normalized. rewrite Hrgb; [done|].
    rewrite Nat.add_comm, Nat.Div0.mod_add, Nat.mod_small; lia. }
  pose proof (Hn 0 ltac:(lia)) as H0. rewrite Nat.add_0_r in H0.
  unfold preprocess_body. by rewrite H0, !Hn by lia.
Qed.

Section PreprocessValues.

Variable n : nat.
Variable d : list Z.
Hypothesis Hlen : length d = 4 * n.
Hypothesis Hbytes : Forall is_byte d.

Lemma preprocess_loop_value (c i : nat) :
  c < 3 -> i < n ->
  exists b, d !! (i * 4 + c) = Some b /\ is_byte b /\
    preprocess_loop n d !! (c * n + i) = Some (fround (div (of_Z b) (of_Z 255))).
Proof.
  intros Hc Hi.
  destruct (lookup_lt_is_Some_2 d (i * 4 + c)) as [b Hb]; [lia|].
  exists b. split; [done|]. split.
  - rewrite Forall_forall in Hbytes. apply Hbytes.
    apply list_elem_of_lookup. eauto.
  - rewrite preprocess_loop_lookup by done. unfold normalized. by rewrite Hb.
Qed.

Lemma preprocess_loop_in_unit :
  Forall (fun v => f32_in_unit v = true) (preprocess_loop n d).
Proof.
  apply Forall_lookup. intros j v Hj.
  assert (j < 3 * n) as Hlt.
  { rewrite <- (preprocess_loop_length n d). by eapply lookup_lt_Some. }
  destruct (preprocess_loop_value (j / n) (j mod n)) as (b & _ & Hb & Ht).
  - apply Nat.Div0.div_lt_upper_bound. lia.
  - apply Nat.mod_upper_bound. lia.
  - rewrite (Nat.mul_comm (j / n)), <- Nat.div_mod_eq in Ht.
    rewrite Hj in Ht. injection Ht as ->. by apply normalized_byte_in_unit.
Qed.

End PreprocessValues.

(** C3. For every 1024 by 1024 RGBA buffer read back from the canvas,
    [_preprocessImage] returns a float32 tensor of shape [1,3,1024,1024]
    holding 1*3*1024*1024 values, in planar order: the value at position
    c * 1024 * 1024 + i (c = 0, 1, 2 for R, G, B) is byte c of pixel i
    divided by 255.0, as stored in a [Float32Array]; every value lies in
    [0,1]; and two buffers that differ in alpha bytes only give the same
    tensor. *)
Theorem preprocess_tensor (d : list Z) :
  length d = 4 * canvas_pixels -> Forall is_byte d ->
  let t := _preprocessImage d in
  dims t = [1; 3; 1024; 1024] /\
  length (tensor_data t) = 1 * 3 * 1024 * 1024 /\
  (forall c i, c < 3 -> i < canvas_pixels ->
     exists b, d !! (i * 4 + c) = Some b /\
       tensor_data t !! (c * canvas_pixels + i) = Some (fround (div (of_Z b) (of_Z 255)))) /\
  Forall (fun v => f32_in_unit v = true) (tensor_data t) /\
  (forall d', (forall k, k mod 4 <> 3 -> d' !! k = d !! k) ->
     _preprocessImage d' = t).
Proof.
  intros Hlen Hbytes. cbv zeta. unfold _preprocessImage. cbn [dims tensor_data].
  assert (3 * canvas_pixels = 1 * 3 * 1024 * 1024) as Hsize.
  { unfold canvas_pixels, canvas_side.
    rewrite Nat.mul_1_l, <- Nat.mul_assoc. reflexivity. }
  generalize dependent canvas_pixels. intros n Hlen Hsize.
  split; [reflexivity|]. split.
  { rewrite preprocess_loop_length. exact Hsize. }
  split.
  { intros c i Hc Hi.
    destruct (preprocess_loop_value n d Hlen Hbytes c i Hc Hi) as (b & Hb & _ & Ht). eauto. }
  split; [by apply preprocess_loop_in_unit|].
  intros d' Hrgb. f_equal. by apply preprocess_loop_rgb_only.
Qed.

Lemma preprocess_tensor_witness :
  dims (_preprocessImage (replicate (4 * canvas_pixels) 7%Z)) = [1; 3; 1024; 1024] /\
  length (tensor_data (_preprocessImage (replicate (4 * canvas_pixels) 7%Z)))
  = 1 * 3 * 1024 * 1024.
Proof.
  destruct (preprocess_tensor (replicate (4 * canvas_pixels) 7%Z)) as (H1 & H2 & _).
  - apply length_replicate.
  - apply Forall_replicate. unfold is_byte. lia.
  - exact (conj H1 H2).
Defined.

(** ** The model cache *)


(** Every handler of [_cacheModel] ends in [resolve()]: the promise that
    the download awaits is fulfilled, with the storage the put leaves. *)
Lemma cacheModel_ok (key : string) (now : Z) (buf : list Z) (idb : IndexedDB) :
  _cacheModel key now buf idb = (Ok (), (_cacheModel key now buf idb).2).
Proof. by destruct idb. Qed.

Lemma getCachedModel_resolves (key : string) (idb : IndexedDB) :
  exists r, (_getCachedModel key idb).1 = Ok r.
Proof. destruct idb; simpl; eauto. Qed.



(** ** The model fetcher *)

Section ReadLoop.

Variable totalSize : Z.

Lemma read_loop_outcome (s : Stream) (chunks : list (list Z)) (size : Z)
    (last : number) (evs : list ProgressEvent) :
  (read_loop totalSize s chunks size last evs).1 =
  if stream_completes s
  then Ok (chunks ++ stream_chunks s, (size + chunks_size (stream_chunks s))%Z)
  else Throw (HostError StreamRead).
Proof.
  revert chunks size last evs.
  induction s as [|value rest IH|]; intros chunks size last evs;
    cbn [read_loop stream_completes stream_chunks fst].
  - rewrite app_nil_r. unfold chunks_size. simpl. f_equal. f_equal. lia.
  - assert (forall l e,
      (read_loop totalSize rest (chunks ++ [value]) (size + Z.of_nat (length value)) l e).1 =
      if stream_completes rest
      then Ok (chunks ++ value :: stream_chunks rest,
               (size + chunks_size (value :: stream_chunks rest))%Z)
      else Throw (HostError StreamRead)) as Hrest.
    { intros l e. rewrite IH. destruct (stream_completes rest); [|done].
      rewrite <- app_assoc. unfold chunks_size. simpl.
      rewrite length_app. f_equal. f_equal. lia. }
    destruct (totalSize >? 0)%Z; [destruct (number_neq _ _)|]; apply Hrest.
  - done.
Qed.

(** The events of the loop: the computed percentages that differ from the
    one emitted last, in order. *)
Lemma read_loop_emitted (s : Stream) (chunks : list (list Z)) (size : Z)
    (last : number) (evs : list ProgressEvent) :
  percents (read_loop totalSize s chunks size last evs).2 =
  percents evs ++
  if (totalSize >? 0)%Z then changes last (computed_percents totalSize s size) else [].
Proof.
  revert chunks size last evs.
  induction s as [|value rest IH|]; intros chunks size last evs;
    cbn [read_loop computed_percents changes snd].
  - destruct (totalSize >? 0)%Z; by rewrite app_nil_r.
  - destruct (totalSize >? 0)%Z eqn:Htotal.
    + destruct (number_neq _ _).
      * rewrite IH. unfold percents. by rewrite fmap_app, <- app_assoc.
      * by rewrite IH.
    + by rewrite IH.
  - destruct (totalSize >? 0)%Z; by rewrite app_nil_r.
Qed.

End ReadLoop.

Lemma typed_set_zeros (pre chunk : list Z) (n : nat) :
  typed_set (pre ++ replicate (length chunk + n) 0%Z) chunk (length pre)
  = (pre ++ chunk) ++ replicate n 0%Z.
Proof.
  unfold typed_set.
  rewrite take_app_length, drop_app_add, drop_replicate.
  rewrite <- app_assoc. do 3 f_equal. lia.
Qed.

Lemma assemble_loop (chunks : list (list Z)) (pre : list Z) (n : nat) :
  foldl (fun '(modelBuffer, offset) chunk =>
           (typed_set modelBuffer chunk offset, offset + length chunk))
        (pre ++ replicate (length (concat chunks) + n) 0%Z, length pre) chunks
  = ((pre ++ concat chunks) ++ replicate n 0%Z, length (pre ++ concat chunks)).
Proof.
  revert pre. induction chunks as [|chunk chunks IH]; intros pre; simpl.
  - by rewrite app_nil_r.
  - rewrite length_app, <- Nat.add_assoc, typed_set_zeros, <- length_app.
    rewrite IH. by rewrite <- !app_assoc.
Qed.

(** The buffer built from the chunks is their concatenation, in order. *)
Lemma assemble_concat (chunks : list (list Z)) :
  assemble chunks (chunks_size chunks) = concat chunks.
Proof.
  unfold assemble, chunks_size. rewrite Nat2Z.id.
  pose proof (assemble_loop chunks [] 0) as H. simpl in H.
  rewrite Nat.add_0_r in H. rewrite H. simpl. by rewrite app_nil_r.
Qed.

Lemma download_continue_outcome (response : option Response) (key : string)
    (now : Z) (idb : IndexedDB) :
  outcome (download_continue response key now idb) =
  match response with
  | None => Throw (HostError FetchCall)
  | Some r =>
      if negb (ok r) then Throw (DownloadError "Model download failed")
      else match body r with
           | None => Throw (DownloadError "Response body is null")
           | Some stream =>
               if stream_completes stream then Ok (concat (stream_chunks stream))
               else Throw (HostError StreamRead)
           end
  end.
Proof.
  unfold download_continue. destruct response as [r|]; [|done].
  destruct (ok r); [|done]. simpl. destruct (body r) as [stream|]; [|done].
  pose proof (read_loop_outcome (totalSize_of r) stream [] 0 (of_Z 10) []) as Hloop.
  destruct (read_loop _ _ _ _ _ _) as [[[chunks size]|e] evs]; simpl in Hloop.
  - destruct (stream_completes stream); [|done].
    injection Hloop as -> ->. rewrite Z.add_0_l, assemble_concat.
    by rewrite cacheModel_ok.
  - destruct (stream_completes stream); [done|]. by injection Hloop as ->.
Qed.

(** The storage and the accesses a download leaves. *)
Lemma download_continue_state (response : option Response) (key : string)
    (now : Z) (idb : IndexedDB) :
  let d := download_continue response key now idb in
  match outcome d with
  | Ok modelBuffer =>
      idb_after d = (_cacheModel key now modelBuffer idb).2 /\
      accesses d = idb_io idb /\
      exists evs, emitted d = evs ++ [progress 75 "Caching model for future use..."]
  | Throw _ => idb_after d = idb /\ accesses d = []
  end.
Proof.
  cbv zeta. unfold download_continue. destruct response as [r|]; [|done].
  destruct (negb (ok r)); [done|]. destruct (body r) as [stream|]; [|done].
  destruct (read_loop _ _ _ _ _ _) as [[[chunks size]|e] evs]; [|done].
  rewrite cacheModel_ok. simpl. eauto.
Qed.

(** C8, as amended. [_downloadAndCacheModelWithProgress] throws one of its
    own two errors ('Model download failed', 'Response body is null')
    exactly when [fetch] delivered a response whose status is not ok or
    whose body is null; it also fails when [fetch] itself rejects and when
    a read of the body rejects, exactly then with that rejection, passed
    through as it is; it fails in no other way, so never with an error of
    the cache write, which resolves in every state of the storage; when the
    response is ok and its stream is read to the end, the buffer returned
    is the concatenation of the chunks in the order they arrived; and the
    outcome is the same in every state of the storage: where the storage
    is absent or fails to open, the write stores nothing and the buffer is
    returned all the same. *)
Theorem download_outcome (fetch : string -> option Response) (url key : string)
    (now : Z) (idb : IndexedDB) :
  let d := _downloadAndCacheModelWithProgress fetch url key now idb in
  ((exists msg, outcome d = Throw (DownloadError msg)) <->
   (exists r, fetch url = Some r /\ (ok r = false \/ body r = None))) /\
  (outcome d = Throw (HostError FetchCall) <-> fetch url = None) /\
  (outcome d = Throw (HostError StreamRead) <->
   (exists r stream, fetch url = Some r /\ ok r = true /\ body r = Some stream /\
                     stream_completes stream = false)) /\
  (forall e, outcome d = Throw e ->
     (exists msg, e = DownloadError msg) \/
     e = HostError FetchCall \/ e = HostError StreamRead) /\
  (forall r stream,
     fetch url = Some r -> ok r = true -> body r = Some stream ->
     stream_completes stream = true ->
     outcome d = Ok (concat (stream_chunks stream))) /\
  (forall idb',
     outcome (_downloadAndCacheModelWithProgress fetch url key now idb') = outcome d) /\
  (forall r stream,
     fetch url = Some r -> ok r = true -> body r = Some stream ->
     stream_completes stream = true -> available idb = false ->
     outcome d = Ok (concat (stream_chunks stream)) /\ idb_after d = idb).
Proof.
  cbv zeta. unfold _downloadAndCacheModelWithProgress. cbn [outcome idb_after].
  pose proof (download_continue_state (fetch url) key now idb) as Hstate.
  cbv zeta in Hstate. rewrite download_continue_outcome in Hstate.
  rewrite download_continue_outcome. split_and!; cycle 6.
  { intros r stream Hr Hok Hbody Hdone Ha. rewrite Hr, Hok, Hbody, Hdone in *.
    cbn [negb] in Hstate. destruct Hstate as (-> & _). split; [done|].
    by destruct idb. }
  - split.
    + intros [msg Hmsg]. destruct (fetch url) as [r|]; [|done]. exists r.
      split; [done|]. destruct (ok r); [|by left]. right.
      destruct (body r) as [stream|]; [|done].
      by destruct (stream_completes stream).
    + intros (r & -> & [Hok|Hbody]).
      * rewrite Hok. eauto.
      * rewrite Hbody. destruct (ok r); eauto.
  - split; [|by intros ->].
    destruct (fetch url) as [r|]; [|done].
    destruct (ok r); [|done]. destruct (body r) as [stream|]; [|done].
    by destruct (stream_completes stream).
  - split.
    + destruct (fetch url) as [r|]; [|done].
      destruct (ok r) eqn:Hok; [|done]. destruct (body r) as [stream|] eqn:Hbody; [|done].
      destruct (stream_completes stream) eqn:Hdone; [done|]. intros _.
      by exists r, stream.
    + by intros (r & stream & -> & -> & -> & ->).
  - intros e He. destruct (fetch url) as [r|]; [|injection He as <-; eauto].
    destruct (ok r); [|injection He as <-; eauto].
    destruct (body r) as [stream|]; [|injection He as <-; eauto].
    destruct (stream_completes stream); [done|injection He as <-; eauto].
  - intros r stream -> -> -> ->. done.
  - intros idb'. by rewrite download_continue_outcome.
Qed.

(** C8, the claim as stated, at two inputs. When [fetch] rejects, and when
    the status is ok and the body is there but its second read rejects,
    the download fails with a network failure, which the specification
    files under DownloadError, although no response has a failing status
    or lacks a body. *)
Lemma download_rejection_counterexample :
  let offline := fun _ : string => @None Response in
  let dropped := fun _ : string => Some ex_response_dropped in
  ~ ((exists e, outcome (_downloadAndCacheModelWithProgress offline "u" "k" 0 NotCreated)
                = Throw e /\ spec_DownloadError e = true) <->
     (exists r, offline "u" = Some r /\ (ok r = false \/ body r = None))) /\
  ~ ((exists e, outcome (_downloadAndCacheModelWithProgress dropped "u" "k" 0 NotCreated)
                = Throw e /\ spec_DownloadError e = true) <->
     (exists r, dropped "u" = Some r /\ (ok r = false \/ body r = None))).
Proof.
  cbv zeta. split.
  - intros [Hfails _]. destruct Hfails as (r & Hr & _); [|done].
    exists (HostError FetchCall). by vm_compute.
  - intros [Hfails _]. destruct Hfails as (r & Hr & Hcase).
    + exists (HostError StreamRead). by vm_compute.
    + injection Hr as <-. by destruct Hcase.
Qed.

Lemma download_outcome_witness :
  outcome (_downloadAndCacheModelWithProgress (fun _ => Some ex_response)
             "u" "k" 0 OpenFails) = Ok [1; 2; 3; 4; 5; 6]%Z.
Proof.
  destruct (download_outcome (fun _ => Some ex_response) "u" "k" 0 OpenFails)
    as (_ & _ & _ & _ & Hok & _).
  apply (Hok ex_response (Chunk [1; 2; 3]%Z (Chunk [4; 5]%Z (Chunk [6]%Z Done))));
    reflexivity.
Defined.

(** The progress events of a download that is read to the end: the
    percentages 10 + round(received / total * 60) that differ from the one
    emitted last (10 at the start), then 75; none but 75 when the response
    announces no length. *)
Lemma download_emitted (r : Response) (stream : Stream) (key : string)
    (now : Z) (idb : IndexedDB) :
  ok r = true -> body r = Some stream -> stream_completes stream = true ->
  percents (emitted (download_continue (Some r) key now idb)) =
  (if (totalSize_of r >? 0)%Z
   then changes (of_Z 10) (computed_percents (totalSize_of r) stream 0)
   else []) ++ [of_Z 75].
Proof.
  intros Hok Hbody Hdone. unfold download_continue. rewrite Hok, Hbody. simpl.
  pose proof (read_loop_outcome (totalSize_of r) stream [] 0 (of_Z 10) []) as Hloop.
  pose proof (read_loop_emitted (totalSize_of r) stream [] 0 (of_Z 10) []) as Hevs.
  rewrite Hdone in Hloop.
  destruct (read_loop _ _ _ _ _ _) as [[[chunks size]|e] evs]; [|done].
  simpl in Hevs. rewrite cacheModel_ok. simpl.
  unfold percents in *. by rewrite fmap_app, Hevs.
Qed.

(** C9, the code at a failing input. With a content-length of 10 and a
    body of 20 bytes the download emits the percentage
    10 + round(20 / 10 * 60) = 130, above the band [10,70]. *)
Theorem download_percent_unclamped :
  percents (emitted (_downloadAndCacheModelWithProgress
                       (fun _ => Some ex_response_over) "u" "k" 0 NoIndexedDB))
  = [of_Z 130; of_Z 75] /\
  ltb (of_Z 70) (of_Z 130) = true.
Proof. split; vm_compute; reflexivity. Qed.

(** ** The orchestrator *)

#[global] Arguments of_Z : simpl never.
#[global] Arguments progress : simpl never.
#[global] Arguments _preprocessImage : simpl never.
#[global] Arguments _applyMask : simpl never.
#[global] Arguments download_continue : simpl never.
#[global] Arguments _getCachedModel : simpl never.

Lemma run_alone_S (host : Host) (fuel : nat) (input : Input) (base64 : bool) (sh : Shared) :
  run_alone host (S fuel) input base64 sh = resume_task host 0 (run_alone host fuel input base64 sh).
Proof. reflexivity. Qed.

Lemma resume_task_single (host : Host) (sh : Shared) (t : Task) :
  resume_task host 0 {| shared := sh; tasks := [t] |} =
  {| shared := (resume host sh t).1; tasks := [(resume host sh t).2] |}.
Proof. unfold resume_task. simpl. by destruct (resume host sh t). Qed.

(** C7. For every input value that is neither a string nor an image,
    [removeBackground] rejects with the input type error in its first
    segment: whatever the host and the state of the instance, the call is
    settled with that error after emitting the start event only, and the
    shared state, with the storage and the log of network and storage
    accesses, is the one the call found. *)
Theorem invalid_input_rejected (host : Host) (sh : Shared) (v : OtherValue)
    (base64 : bool) (fuel : nat) :
  let s := run_alone host (S fuel) (InOther v) base64 sh in
  shared s = sh /\
  io (shared s) = io sh /\
  tasks s = [ {| return_base64 := base64;
                 pc := Settled (Throw InputTypeError);
                 trace := [progress 0 "Starting background removal..."] |} ].
Proof.
  cbv zeta.
  assert (run_alone host (S fuel) (InOther v) base64 sh =
          {| shared := sh;
             tasks := [ {| return_base64 := base64;
                           pc := Settled (Throw InputTypeError);
                           trace := [progress 0 "Starting background removal..."] |} ] |}) as ->.
  { induction fuel as [|fuel IH]; [reflexivity|].
    rewrite run_alone_S, IH. reflexivity. }
  done.
Qed.

Lemma run_alone_resume_n (host : Host) (n : nat) (input : Input) (base64 : bool)
    (sh : Shared) :
  run_alone host n input base64 sh =
  {| shared := (resume_n host n sh (new_task input base64)).1;
     tasks := [(resume_n host n sh (new_task input base64)).2] |}.
Proof.
  induction n as [|n IH]; [reflexivity|].
  rewrite run_alone_S, IH, resume_task_single. reflexivity.
Qed.

Lemma resume_n_add (host : Host) (n m : nat) (sh : Shared) (t : Task) :
  resume_n host (n + m) sh t =
  resume_n host m (resume_n host n sh t).1 (resume_n host n sh t).2.
Proof.
  unfold resume_n. rewrite Nat.add_comm, Nat.iter_add.
  by destruct (Nat.iter n _ _).
Qed.

Lemma resume_n_settled (host : Host) (n : nat) (sh : Shared) (t : Task) (r : Result Output) :
  pc t = Settled r -> resume_n host n sh t = (sh, t).
Proof.
  intros Hpc. induction n as [|n IH]; [done|].
  unfold resume_n in *. simpl. rewrite IH. unfold resume. simpl. by rewrite Hpc.
Qed.

Lemma resume_n_step (host : Host) (n : nat) (sh sh' : Shared) (t t' : Task) :
  resume host sh t = (sh', t') ->
  resume_n host (S n) sh t = resume_n host n sh' t'.
Proof.
  intros Hstep. unfold resume_n. rewrite Nat.iter_succ_r. simpl. by rewrite Hstep.
Qed.

Lemma resume_n_front (host : Host) (n : nat) (sh : Shared) (t : Task) :
  resume_n host (S n) sh t = resume_n host n (resume host sh t).1 (resume host sh t).2.
Proof.
  unfold resume_n. rewrite Nat.iter_succ_r. cbn [fst snd].
  by destruct (resume host sh t).
Qed.

(** One segment of a call run alone, evaluated with the facts [tac]
    rewrites with. *)
Ltac run_segment tac :=
  erewrite resume_n_step; [|unfold resume; simpl; tac; reflexivity].

Lemma percents_app (evs evs' : list ProgressEvent) :
  percents (evs ++ evs') = percents evs ++ percents evs'.
Proof. apply fmap_app. Qed.

(** From the start of preprocessing to the result: when nothing fails,
    the call emits 35, 70, 90 and 100 and resolves. *)
Lemma pipeline_tail (host : Host) (sh : Shared) (t : Task) (img : Image) (s : Session) :
  pipeline_ok host -> nonempty img -> session sh = Some s ->
  pc t = AwaitPreprocess img (preprocess_call host img) ->
  exists t',
    resume_n host 3 sh t = (sh, t') /\ succeeded t' /\
    percents (trace t') = percents (trace t) ++ (of_Z <$> [35; 70; 90; 100]%Z).
Proof.
  intros [Hctx Hrun Henc] [Hw Hh] Hs Hpc.
  destruct t as [b c tr]. cbn [pc trace] in *. subst c.
  destruct (Hrun s (_preprocessImage (getImageData_1024 host img))) as [mask Hmask].
  destruct (Henc (_applyMask {| width := img_width img; height := img_height img;
                                data := getImageData_native host img |} mask)) as [res Hres].
  assert (applyMask_call host img mask
          = Ok (_applyMask {| width := img_width img; height := img_height img;
                              data := getImageData_native host img |} mask)) as Hmaskcall.
  { unfold applyMask_call. rewrite Hctx.
    destruct (img_width img =? 0) eqn:Ew; [apply Nat.eqb_eq in Ew; lia|].
    destruct (img_height img =? 0) eqn:Eh; [apply Nat.eqb_eq in Eh; lia|]. done. }
  destruct b; eexists; (split; [|split]).
  - run_segment ltac:(unfold preprocess_call; rewrite Hctx, Hs).
    run_segment ltac:(rewrite Hmask, Hmaskcall).
    by eapply resume_n_settled.
  - by eexists.
  - simpl. rewrite !percents_app. simpl. by rewrite <- !app_assoc.
  - run_segment ltac:(unfold preprocess_call; rewrite Hctx, Hs).
    run_segment ltac:(rewrite Hmask, Hmaskcall).
    run_segment ltac:(rewrite Hres).
    reflexivity.
  - by eexists.
  - simpl. rewrite !percents_app. simpl. by rewrite <- !app_assoc.
Qed.

Lemma resume_n_settled_more (host : Host) (n k : nat) (sh sh' : Shared) (t t' : Task) :
  resume_n host n sh t = (sh', t') -> (exists r, pc t' = Settled r) ->
  resume_n host (n + k) sh t = (sh', t').
Proof.
  intros Hn [r Hr]. rewrite resume_n_add, Hn. simpl. by eapply resume_n_settled.
Qed.

(** A valid input reaches the test of the flags, lines 54 to 67, with its
    image, after one segment or, for a string, two. *)
Lemma start_run (host : Host) (input : Input) (b : bool) (sh : Shared) (n : nat) :
  valid_input host input ->
  exists img t,
    nonempty img /\ return_base64 t = b /\
    percents (trace t) = of_Z <$> start_percents input /\
    resume_n host (start_steps input + n) sh (new_task input b) =
    resume_n host n (check_model host sh img t).1 (check_model host sh img t).2.
Proof.
  intros Hvalid. destruct input as [base64|img|v]; [| |done].
  - destruct Hvalid as (img & Hdec & Himg).
    exists img. eexists. split; [done|]. split; [|split]; cycle 2.
    + cbn [start_steps Nat.add]. unfold new_task.
      run_segment idtac. rewrite resume_n_front.
      unfold resume. cbn [pc goto emit emit_all]. rewrite Hdec. reflexivity.
    + reflexivity.
    + reflexivity.
  - exists img. eexists. split; [done|]. split; [|split]; cycle 2.
    + cbn [start_steps Nat.add]. unfold new_task. rewrite resume_n_front.
      unfold resume. cbn [pc]. reflexivity.
    + reflexivity.
    + reflexivity.
Qed.

(** The last three segments, by [pipeline_tail]. *)
Ltac use_tail img s :=
  match goal with
  | |- context [resume_n ?host 3 ?sh ?t] =>
      destruct (pipeline_tail host sh t img s) as (t' & Hrun & Hok & Htr');
      [done|done|first [done|reflexivity]|reflexivity|]
  end.

Lemma percents_progress (p : Z) (msg : string) :
  percents [progress p msg] = [of_Z p].
Proof. reflexivity. Qed.

Ltac trace_eq :=
  unfold after_model; simpl; rewrite ?percents_app, ?percents_progress;
  repeat match goal with H : percents _ = _ |- _ => rewrite H end;
  rewrite ?fmap_app; simpl; rewrite <- ?app_assoc; reflexivity.

(** A call on an instance whose model is loaded. *)
Lemma loaded_run (host : Host) (input : Input) (b : bool) (sh : Shared) (s : Session) :
  pipeline_ok host -> valid_input host input ->
  modelLoaded sh = true -> session sh = Some s ->
  exists t',
    resume_n host (start_steps input + 3) sh (new_task input b) = (sh, t') /\
    succeeded t' /\
    percents (trace t') = of_Z <$> (start_percents input ++ [10; 15; 35; 70; 90; 100]%Z).
Proof.
  intros Hhost Hvalid Hloaded Hs.
  destruct (start_run host input b sh 3 Hvalid) as (img & t & Himg & _ & Htr & ->).
  unfold check_model, after_model. rewrite Hloaded, Hs. cbn [negb andb fst snd].
  use_tail img s. exists t'. split; [exact Hrun|]. split; [done|].
  rewrite Htr', fmap_app. trace_eq.
Qed.

(** On that path the percentages are strictly increasing. *)
Lemma loaded_run_increasing (host : Host) (input : Input) (b : bool) (sh : Shared)
    (s : Session) :
  pipeline_ok host -> valid_input host input ->
  modelLoaded sh = true -> session sh = Some s ->
  exists t',
    resume_n host (start_steps input + 3) sh (new_task input b) = (sh, t') /\
    succeeded t' /\ strictly_increasing (percents (trace t')) = true.
Proof.
  intros Hhost Hvalid Hloaded Hs.
  destruct (loaded_run host input b sh s Hhost Hvalid Hloaded Hs) as (t' & Hrun & Hok & Htr).
  exists t'. split; [done|]. split; [done|]. rewrite Htr.
  destruct input; by vm_compute.
Qed.

(** A call that waited for the load of another call, once the flag
    [modelLoading] is reset: it goes on from 10 to 15 and up to 100. *)
Lemma waited_run (host : Host) (sh : Shared) (t : Task) (img : Image) (s : Session) :
  pipeline_ok host -> nonempty img -> pc t = Polling img ->
  modelLoading sh = false -> session sh = Some s ->
  exists t',
    resume_n host 4 sh t = (sh, t') /\ succeeded t' /\
    percents (trace t') = percents (trace t) ++ (of_Z <$> [15; 35; 70; 90; 100]%Z).
Proof.
  intros Hhost Himg Hpc Hloading Hs.
  destruct t as [b c tr]. cbn [pc trace] in *. subst c.
  run_segment ltac:(rewrite Hloading; unfold after_model; rewrite Hs).
  use_tail img s. exists t'. split; [exact Hrun|]. split; [done|].
  rewrite Htr'. trace_eq.
Qed.

(** The first call on an instance whose model is in the cache. *)
Lemma cache_hit_run (host : Host) (input : Input) (b : bool) (sh : Shared)
    (cachedModel : list Z) (db : IndexedDB) (s : Session) :
  pipeline_ok host -> valid_input host input ->
  modelLoaded sh = false -> modelLoading sh = false ->
  _getCachedModel (modelCacheKey sh) (idb sh) = (Ok (Some cachedModel), db) ->
  ort_loaded host = true -> create_session host cachedModel = Some s ->
  exists sh' t',
    resume_n host (start_steps input + 6) sh (new_task input b) = (sh', t') /\
    succeeded t' /\
    modelLoaded sh' = true /\ modelLoading sh' = false /\ session sh' = Some s /\
    percents (trace t')
    = of_Z <$> (start_percents input ++ [5; 15; 30; 15; 35; 70; 90; 100]%Z).
Proof.
  intros Hhost Hvalid Hloaded Hloading Hget Hort Hcreate.
  destruct (start_run host input b sh 6 Hvalid) as (img & t & Himg & _ & Htr & ->).
  unfold check_model. rewrite Hloaded, Hloading. cbn [negb andb fst snd].
  run_segment ltac:(rewrite Hget; simpl; rewrite Hort).
  run_segment ltac:(rewrite Hcreate).
  run_segment idtac.
  use_tail img s. do 2 eexists. split; [exact Hrun|]. split; [done|].
  split; [reflexivity|]. split; [reflexivity|]. split; [reflexivity|].
  rewrite Htr', fmap_app. trace_eq.
Qed.

(** The first call on an instance whose model has to be downloaded. *)
Lemma download_run (host : Host) (input : Input) (b : bool) (sh : Shared)
    (db : IndexedDB) :
  healthy host (modelUrl sh) -> valid_input host input ->
  modelLoaded sh = false -> modelLoading sh = false ->
  _getCachedModel (modelCacheKey sh) (idb sh) = (Ok None, db) ->
  exists sh' t',
    resume_n host (start_steps input + 7) sh (new_task input b) = (sh', t') /\
    succeeded t' /\
    modelLoaded sh' = true /\ modelLoading sh' = false /\ is_Some (session sh') /\
    percents (trace t')
    = (of_Z <$> (start_percents input ++ [5; 10]%Z))
      ++ percents (emitted (download_continue (fetch host (modelUrl sh))
                              (modelCacheKey sh) (now host) db))
      ++ (of_Z <$> [80; 90; 15; 35; 70; 90; 100]%Z).
Proof.
  intros [Hhost Hort Hcreate (r & stream & Hfetch & Hrok & Hbody & Hdone)]
    Hvalid Hloaded Hloading Hget.
  destruct (start_run host input b sh 7 Hvalid) as (img & t & Himg & _ & Htr & ->).
  unfold check_model. rewrite Hloaded, Hloading. cbn [negb andb fst snd].
  run_segment ltac:(rewrite Hget; simpl; rewrite Hort).
  pose proof (download_continue_outcome (fetch host (modelUrl sh)) (modelCacheKey sh)
                (now host) db) as Hout.
  rewrite Hfetch, Hrok, Hbody, Hdone in Hout. cbn [negb] in Hout.
  destruct (Hcreate (concat (stream_chunks stream))) as [s Hs].
  run_segment ltac:(rewrite Hfetch, Hout).
  run_segment ltac:(rewrite Hs).
  run_segment idtac.
  use_tail img s. do 2 eexists. split; [exact Hrun|]. split; [done|].
  split; [reflexivity|]. split; [reflexivity|]. split; [by eexists|].
  rewrite Htr', !fmap_app, Hfetch. trace_eq.
Qed.

Lemma ex_host_pipeline_ok : pipeline_ok ex_host.
Proof. split; [done|by eexists..]. Qed.

Lemma ex_host_healthy (url : string) : healthy ex_host url.
Proof.
  split; [apply ex_host_pipeline_ok|done|by eexists|].
  exists ex_response. eexists. by repeat split.
Qed.

Lemma ex_img_nonempty : nonempty ex_img.
Proof. unfold nonempty. simpl. lia. Qed.

(** C2, the code at two failing inputs. The first call on a new instance,
    run alone on a host where nothing fails, emits 90 and then 15 when the
    model is downloaded, and 30 and then 15 when the model is in the cache:
    in both cases the percentages passed to the progress callback are not
    strictly increasing. *)
Theorem first_call_progress_regresses :
  percents_alone ex_host 8 (InImage ex_img) false ex_fresh
  = [of_Z <$> [0; 5; 10; 40; 60; 70; 75; 80; 90; 15; 35; 70; 90; 100]%Z] /\
  strictly_increasing
    (of_Z <$> [0; 5; 10; 40; 60; 70; 75; 80; 90; 15; 35; 70; 90; 100]%Z) = false /\
  percents_alone ex_host 7 (InImage ex_img) false ex_cached
  = [of_Z <$> [0; 5; 15; 30; 15; 35; 70; 90; 100]%Z] /\
  strictly_increasing (of_Z <$> [0; 5; 15; 30; 15; 35; 70; 90; 100]%Z) = false.
Proof.
  unfold percents_alone. rewrite !run_alone_resume_n. cbn [tasks fmap list_fmap].
  split; [|split; [by vm_compute|split; [|by vm_compute]]].
  - destruct (download_run ex_host (InImage ex_img) false ex_fresh (Opened ∅))
      as (sh' & t' & Hrun & _ & _ & _ & _ & Htr).
    + apply ex_host_healthy.
    + apply ex_img_nonempty.
    + reflexivity.
    + reflexivity.
    + reflexivity.
    + cbn [start_steps Nat.add] in Hrun. rewrite Hrun. cbn [snd]. rewrite Htr.
      by vm_compute.
  - destruct (cache_hit_run ex_host (InImage ex_img) false ex_cached [1; 2; 3]%Z
                (idb ex_cached) {| session_model := [1; 2; 3]%Z |})
      as (sh' & t' & Hrun & _ & _ & _ & _ & Htr).
    + apply ex_host_pipeline_ok.
    + apply ex_img_nonempty.
    + reflexivity.
    + reflexivity.
    + by vm_compute.
    + reflexivity.
    + reflexivity.
    + cbn [start_steps Nat.add] in Hrun. rewrite Hrun. cbn [snd]. by rewrite Htr.
Qed.

(** ** Calls interleaved on one instance *)

Lemma fetches_log_io (evs : list IOEvent) (sh : Shared) :
  fetches (log_io evs sh) = fetches sh + length (filter (fun e => is_fetch e = true) evs).
Proof. unfold fetches. simpl. by rewrite filter_app, length_app. Qed.

Lemma idb_io_no_fetch (db : IndexedDB) :
  filter (fun e => is_fetch e = true) (idb_io db) = [].
Proof. by destruct db. Qed.

Lemma download_continue_no_fetch (response : option Response) (key : string)
    (now : Z) (db : IndexedDB) :
  filter (fun e => is_fetch e = true) (accesses (download_continue response key now db)) = [].
Proof.
  unfold download_continue. destruct response as [r|]; [|done].
  destruct (negb (ok r)); [done|]. destruct (body r); [|done].
  destruct (read_loop _ _ _ _ _ _) as [[[chunks size]|e] evs]; [|done].
  rewrite cacheModel_ok. simpl. apply idb_io_no_fetch.
Qed.

Lemma fetches_set_idb (db : IndexedDB) (sh : Shared) : fetches (set_idb db sh) = fetches sh.
Proof. reflexivity. Qed.

Lemma fetches_set_session (x : Session) (sh : Shared) : fetches (set_session x sh) = fetches sh.
Proof. reflexivity. Qed.

Lemma fetches_set_flags (a b : bool) (sh : Shared) : fetches (set_flags a b sh) = fetches sh.
Proof. reflexivity. Qed.

(** What one segment does to the flags, the session, the cache and the
    count of downloads, by the position of the call before and after. *)
Lemma resume_effect (host : Host) (sh : Shared) (t : Task) :
  let sh' := (resume host sh t).1 in
  let t' := (resume host sh t).2 in
  modelUrl sh' = modelUrl sh /\ modelCacheKey sh' = modelCacheKey sh /\
  return_base64 t' = return_base64 t /\
  match in_load (pc t), in_load (pc t') with
  | false, false =>
      flags sh' = flags sh /\ fetches sh' = fetches sh /\
      idb sh' = idb sh /\ session sh' = session sh
  | false, true =>
      flags sh = (false, false) /\ flags sh' = (false, true) /\
      fetches sh' = fetches sh /\ before_fetch (pc t') = true /\
      idb sh' = idb sh /\ session sh' = session sh
  | true, true =>
      flags sh' = flags sh /\
      fetches sh' = fetches sh + (if before_fetch (pc t) && after_fetch (pc t') then 1 else 0) /\
      (before_fetch (pc t') = true -> before_fetch (pc t) = true)
  | true, false =>
      fetches sh' = fetches sh /\
      (((exists e, pc t' = Settled (Throw e)) /\ flags sh' = flags sh) \/
       ((exists img, pc t = AwaitLoad img) /\ flags sh' = (true, false) /\
        session sh' = session sh))
  end.
Proof.
  cbv zeta. destruct t as [b c tr]. unfold resume. cbn [pc].
  destruct c; simpl.
  all: unfold check_model, after_model; simpl.
  all: repeat case_match; simpl;
    rewrite ?fetches_log_io, ?idb_io_no_fetch, ?download_continue_no_fetch,
      ?fetches_set_idb, ?fetches_set_session, ?fetches_set_flags; simpl.
  all: unfold flags; simpl.
  all: try (repeat split; first [done | lia | by destruct (modelLoaded sh), (modelLoading sh) ]).
  all: try (repeat split; first [done | lia | by left; eauto | by right; eauto ]).
Qed.

Lemma resume_task_shared (host : Host) (i : nat) (s : State) (t : Task) :
  tasks s !! i = Some t ->
  shared (resume_task host i s) = (resume host (shared s) t).1.
Proof. intros Ht. unfold resume_task. rewrite Ht. by destruct (resume _ _ _). Qed.

Lemma resume_task_lookup (host : Host) (i j : nat) (s : State) (t : Task) :
  tasks s !! i = Some t ->
  tasks (resume_task host i s) !! j =
  if decide (i = j) then Some (resume host (shared s) t).2 else tasks s !! j.
Proof.
  intros Ht. unfold resume_task. rewrite Ht. destruct (resume _ _ _) as [sh' t'].
  cbn [tasks snd]. case_decide as Hij.
  - subst j. apply list_lookup_insert_eq. by eapply lookup_lt_Some.
  - by apply list_lookup_insert_ne.
Qed.

Lemma resume_task_none (host : Host) (i : nat) (s : State) :
  tasks s !! i = None -> resume_task host i s = s.
Proof. intros Ht. unfold resume_task. by rewrite Ht. Qed.

Lemma before_fetch_in_load (c : PC) : before_fetch c = true -> in_load c = true.
Proof. by destruct c. Qed.

Lemma before_after_fetch (c : PC) : before_fetch c = true -> after_fetch c = false.
Proof. by destruct c. Qed.

Section Coherence.

Variable host : Host.

Lemma coherent_initial (sh : Shared) :
  flags sh = (false, false) -> fetches sh = 0 -> coherent (initial sh).
Proof.
  intros Hflags Hfetch.
  split; simpl; try done; try (by rewrite Hflags); try lia.
Qed.

Lemma coherent_call (input : Input) (b : bool) (s : State) :
  coherent s -> coherent (call input b s).
Proof.
  intros [Huniq Hlf Hf Hidle Hle Hbf]. split; simpl; try done.
  - intros i j ti tj Hi Hj Hli Hlj.
    apply lookup_app_Some in Hi as [Hi|[_ Hi]];
      [|by apply list_lookup_singleton_Some in Hi as [_ <-]].
    apply lookup_app_Some in Hj as [Hj|[_ Hj]];
      [|by apply list_lookup_singleton_Some in Hj as [_ <-]].
    by eapply Huniq.
  - intros i t Hi Hload. apply lookup_app_Some in Hi as [Hi|[_ Hi]]; [by eapply Hlf|].
    apply list_lookup_singleton_Some in Hi as [_ <-]. done.
  - intros i t Hi Hload. apply lookup_app_Some in Hi as [Hi|[_ Hi]]; [by eapply Hbf|].
    apply list_lookup_singleton_Some in Hi as [_ <-]. done.
Qed.

Lemma coherent_resume (i : nat) (s : State) :
  coherent s -> coherent (resume_task host i s).
Proof.
  intros Hcoh. destruct (tasks s !! i) as [t|] eqn:Ht;
    [|by rewrite resume_task_none].
  destruct Hcoh as [Huniq Hlf Hf Hidle Hle Hbf].
  pose proof (resume_effect host (shared s) t) as (_ & _ & _ & Heff). cbv zeta in Heff.
  pose proof (resume_task_shared host i s t Ht) as Hsh.
  pose proof (fun j => resume_task_lookup host i j s t Ht) as Hlook.
  set (s' := resume_task host i s) in *. clearbody s'.
  set (sh' := (resume host (shared s) t).1) in *.
  set (t' := (resume host (shared s) t).2) in *. clearbody sh' t'.
  assert (forall j tj, tasks s' !! j = Some tj -> j <> i -> tasks s !! j = Some tj) as Hother.
  { intros j tj Hj Hne. rewrite Hlook in Hj. by case_decide. }
  assert (forall tj, tasks s' !! i = Some tj -> tj = t') as Hself.
  { intros tj Hj. rewrite Hlook in Hj. case_decide; [congruence|done]. }
  destruct (in_load (pc t)) eqn:Hl, (in_load (pc t')) eqn:Hl'.
  - (* the loader stays inside the load *)
    destruct Heff as (Hflags & Hfetch & Hbefore).
    pose proof (Hlf i t Ht Hl) as Hft.
    split; rewrite ?Hsh, ?Hflags; try done.
    + intros j k tj tk Hj Hk Hlj Hlk.
      destruct (decide (j = i)) as [->|Hji], (decide (k = i)) as [->|Hki]; try done.
      * apply Hother in Hk; [|done]. by apply (Huniq i k t tk).
      * apply Hother in Hj; [|done]. by apply (Huniq j i tj t).
      * apply Hother in Hj; [|done]. apply Hother in Hk; [|done]. by apply (Huniq j k tj tk).
    + by rewrite Hft.
    + rewrite Hfetch. destruct (before_fetch (pc t)) eqn:Hb; simpl; [|lia].
      rewrite (Hbf i t Ht Hb). destruct (after_fetch (pc t')); lia.
    + intros j tj Hj Hbj. destruct (decide (j = i)) as [->|Hji].
      * apply Hself in Hj as ->. rewrite Hfetch, (Hbf i t Ht (Hbefore Hbj)).
        rewrite (before_after_fetch _ Hbj), andb_false_r. lia.
      * apply Hother in Hj; [|done]. apply before_fetch_in_load in Hbj.
        by pose proof (Huniq j i tj t Hj Ht Hbj Hl).
  - (* the loader leaves the load *)
    destruct Heff as (Hfetch & Hcase).
    pose proof (Hlf i t Ht Hl) as Hft.
    assert (forall j tj, tasks s' !! j = Some tj -> in_load (pc tj) = false) as Hnone.
    { intros j tj Hj. destruct (decide (j = i)) as [->|Hji].
      - by apply Hself in Hj as ->.
      - apply Hother in Hj; [|done]. destruct (in_load (pc tj)) eqn:Hlj; [|done].
        by pose proof (Huniq j i tj t Hj Ht Hlj Hl). }
    split; rewrite ?Hsh, ?Hfetch; try done.
    + intros j k tj tk Hj Hk Hlj. by rewrite (Hnone j tj Hj) in Hlj.
    + intros j tj Hj Hlj. by rewrite (Hnone j tj Hj) in Hlj.
    + destruct Hcase as [[_ ->]|(_ & -> & _)]; [by rewrite Hft|done].
    + destruct Hcase as [[_ ->]|(_ & -> & _)]; [by rewrite Hft|done].
    + intros j tj Hj Hbj. apply before_fetch_in_load in Hbj.
      by rewrite (Hnone j tj Hj) in Hbj.
  - (* a call enters the load *)
    destruct Heff as (Hflags & Hflags' & Hfetch & Hbefore & _).
    assert (forall j tj, tasks s !! j = Some tj -> in_load (pc tj) = false) as Hnone.
    { intros j tj Hj. destruct (in_load (pc tj)) eqn:Hlj; [|done].
      pose proof (Hlf j tj Hj Hlj) as Hft. by rewrite Hflags in Hft. }
    split; rewrite ?Hsh, ?Hflags', ?Hfetch; try done.
    + intros j k tj tk Hj Hk Hlj Hlk.
      destruct (decide (j = i)) as [->|Hji], (decide (k = i)) as [->|Hki]; try done.
      * apply Hother in Hk; [|done]. by rewrite (Hnone k tk Hk) in Hlk.
      * apply Hother in Hj; [|done]. by rewrite (Hnone j tj Hj) in Hlj.
      * apply Hother in Hj; [|done]. by rewrite (Hnone j tj Hj) in Hlj.
    + intros j tj Hj Hbj. by apply Hidle.
  - (* a call outside the load *)
    destruct Heff as (Hflags & Hfetch & _).
    split; rewrite ?Hsh, ?Hflags, ?Hfetch; try done.
    + intros j k tj tk Hj Hk Hlj Hlk.
      destruct (decide (j = i)) as [->|Hji]; [apply Hself in Hj as ->; congruence|].
      destruct (decide (k = i)) as [->|Hki]; [apply Hself in Hk as ->; congruence|].
      apply Hother in Hj; [|done]. apply Hother in Hk; [|done]. by apply (Huniq j k tj tk).
    + intros j tj Hj Hlj.
      destruct (decide (j = i)) as [->|Hji]; [apply Hself in Hj as ->; congruence|].
      apply Hother in Hj; [|done]. by apply (Hlf j tj).
    + intros j tj Hj Hbj.
      destruct (decide (j = i)) as [->|Hji].
      * apply Hself in Hj as ->. apply before_fetch_in_load in Hbj. congruence.
      * apply Hother in Hj; [|done]. by apply (Hbf j tj).
Qed.

Lemma unique_load_count (s : State) : at_most_one_load s -> loads_in_flight s <= 1.
Proof.
  unfold at_most_one_load, loads_in_flight. induction (tasks s) as [|x l IH]; intros Huniq.
  - simpl. lia.
  - rewrite filter_cons. case_decide as Hx.
    + destruct (filter (fun t => in_load (pc t) = true) l) as [|y ys] eqn:Hfilter;
        [simpl; lia|].
      assert (y ∈ filter (fun t => in_load (pc t) = true) l) as Hy
        by (rewrite Hfilter; left).
      apply list_elem_of_filter in Hy as [Hly Hy].
      apply list_elem_of_lookup in Hy as [j Hj].
      by pose proof (Huniq 0 (S j) x y eq_refl Hj Hx Hly).
    + apply IH. intros i j ti tj Hi Hj Hli Hlj.
      by pose proof (Huniq (S i) (S j) ti tj Hi Hj Hli Hlj) as [= ->].
Qed.

Lemma coherent_step (s s' : State) : coherent s -> step host s s' -> coherent s'.
Proof.
  intros Hcoh Hstep. destruct Hstep; [by apply coherent_call|by apply coherent_resume].
Qed.

Lemma coherent_reachable (s s' : State) :
  coherent s -> reachable_from host s s' -> coherent s'.
Proof.
  intros Hcoh Hreach. induction Hreach as [|s1 s2 s3 Hstep _ IH]; [done|].
  apply IH. by eapply coherent_step.
Qed.

End Coherence.

(** ** A load that rejects *)

Section Blocked.

Variable host : Host.

Lemma resume_polling (sh : Shared) (t : Task) (img : Image) :
  pc t = Polling img -> modelLoading sh = true -> resume host sh t = (sh, t).
Proof. intros Hpc Hloading. unfold resume. by rewrite Hpc, Hloading. Qed.

Lemma check_model_loading (sh : Shared) (img : Image) (t : Task) :
  flags sh = (false, true) ->
  check_model host sh img t
  = (sh, goto (Polling img) (emit 10 "Model is loading, please wait." t)).
Proof.
  unfold flags, check_model. intros [= -> ->]. reflexivity.
Qed.

Lemma blocked_step (s s' : State) :
  blocked s -> step host s s' ->
  blocked s' /\ fetches (shared s') = fetches (shared s) /\ polling_kept s s'.
Proof.
  intros [Hflags Hnone] Hstep. destruct Hstep as [input b s|i s].
  - split; [split; [done|]|split; [done|]].
    + intros j tj Hj. simpl in Hj.
      apply lookup_app_Some in Hj as [Hj|[_ Hj]]; [by eapply Hnone|].
      by apply list_lookup_singleton_Some in Hj as [_ <-].
    + intros j tj img Hj Hpc. exists tj. split; [|done].
      simpl. by apply lookup_app_l_Some.
  - destruct (tasks s !! i) as [t|] eqn:Ht; [|rewrite resume_task_none by done].
    2:{ split; [done|]. split; [done|]. intros j tj img Hj Hpc. eauto. }
    pose proof (resume_effect host (shared s) t) as (_ & _ & _ & Heff). cbv zeta in Heff.
    rewrite (Hnone i t Ht) in Heff.
    destruct (in_load (pc (resume host (shared s) t).2)) eqn:Hl'.
    { destruct Heff as (Hidle & _). by rewrite Hflags in Hidle. }
    destruct Heff as (Hflags' & Hfetch & _).
    unfold blocked. rewrite (resume_task_shared host i s t Ht). split; [split|split].
    + by rewrite Hflags'.
    + intros j tj Hj. rewrite (resume_task_lookup host i j s t Ht) in Hj.
      case_decide; [by injection Hj as <-|by eapply Hnone].
    + done.
    + intros j tj img Hj Hpc. rewrite (resume_task_lookup host i j s t Ht).
      case_decide as Hij; [|eauto]. subst j.
      assert (tj = t) as -> by congruence.
      rewrite (resume_polling (shared s) t img Hpc); [eauto|].
      unfold flags in Hflags. by injection Hflags.
Qed.

Lemma blocked_reachable (s s' : State) :
  blocked s -> reachable_from host s s' ->
  blocked s' /\ fetches (shared s') = fetches (shared s) /\ polling_kept s s'.
Proof.
  intros Hb Hreach. induction Hreach as [s|s1 s2 s3 Hstep _ IH].
  - split; [done|]. split; [done|]. intros j tj img Hj Hpc. eauto.
  - destruct (blocked_step s1 s2 Hb Hstep) as (Hb2 & Hf2 & Hp2).
    destruct (IH Hb2) as (Hb3 & Hf3 & Hp3).
    split; [done|]. split; [congruence|].
    intros j tj img Hj Hpc. destruct (Hp2 j tj img Hj Hpc) as (tj2 & Hj2 & Hpc2).
    by apply (Hp3 j tj2 img).
Qed.

(** C10. On every instance made by the constructor, when a call that is
    inside [_loadModelWithProgress] is resumed and its load rejects, then
    in every state reachable afterwards, whatever calls arrive and in
    whatever order they run: [modelLoading] is true and [modelLoaded]
    false; no call is inside a load, and the number of downloads started
    does not change; every call that is polling is still polling; and a
    call that reaches the test of the flags enters the polling loop. *)
Theorem failed_load_blocks_instance (url key : option string) (idb0 : IndexedDB)
    (s : State) (i : nat) (t : Task) (e : Error) :
  reachable_from host (initial (constructor url key idb0)) s ->
  tasks s !! i = Some t -> inside_load (pc t) = true ->
  pc (resume host (shared s) t).2 = Settled (Throw e) ->
  forall s', reachable_from host (resume_task host i s) s' ->
    modelLoading (shared s') = true /\ modelLoaded (shared s') = false /\
    (forall j tj, tasks s' !! j = Some tj -> in_load (pc tj) = false) /\
    downloads s' = downloads (resume_task host i s) /\
    polling_kept (resume_task host i s) s' /\
    (forall img t0,
       check_model host (shared s') img t0
       = (shared s', goto (Polling img) (emit 10 "Model is loading, please wait." t0))).
Proof.
  intros Hreach Ht Hinside Hfail s' Hreach'.
  assert (coherent s) as Hcoh.
  { eapply coherent_reachable; [|exact Hreach]. by apply coherent_initial. }
  assert (in_load (pc t) = true) as Hl.
  { unfold inside_load in Hinside. by destruct (pc t). }
  assert (blocked (resume_task host i s)) as Hblocked.
  { pose proof (resume_effect host (shared s) t) as (_ & _ & _ & Heff). cbv zeta in Heff.
    rewrite Hl, Hfail in Heff. cbn [in_load] in Heff.
    destruct Heff as (_ & [[_ Hflags]|[[img Himg] _]]).
    2:{ rewrite Himg in Hinside. done. }
    split.
    - rewrite (resume_task_shared host i s t Ht), Hflags.
      by apply (coh_loader_flags s Hcoh i t).
    - intros j tj Hj. rewrite (resume_task_lookup host i j s t Ht) in Hj.
      case_decide as Hij; [injection Hj as <-; by rewrite Hfail|].
      destruct (in_load (pc tj)) eqn:Hlj; [|done].
      by pose proof (coh_unique s Hcoh i j t tj Ht Hj Hl Hlj). }
  destruct (blocked_reachable _ s' Hblocked Hreach') as ([Hflags Hnone] & Hfetch & Hpoll).
  unfold flags in Hflags. injection Hflags as Hloaded Hloading.
  repeat split; try done.
  intros img t0. apply check_model_loading. unfold flags. by rewrite Hloaded, Hloading.
Qed.

End Blocked.

(** ** Two calls at once, when nothing fails *)

Section Sound.

Variable host : Host.

Lemma applyMask_call_ok (img : Image) (mask : list number) :
  context2d host = true -> nonempty img ->
  exists canvas, applyMask_call host img mask = Ok canvas.
Proof.
  intros Hctx [Hw Hh]. unfold applyMask_call. rewrite Hctx.
  destruct (img_width img =? 0) eqn:Ew; [apply Nat.eqb_eq in Ew; lia|].
  destruct (img_height img =? 0) eqn:Eh; [apply Nat.eqb_eq in Eh; lia|].
  eauto.
Qed.

Lemma after_model_sound (sh : Shared) (img : Image) (t : Task) :
  nonempty img -> ready sh -> task_sound host sh (after_model host sh img t).
Proof.
  intros Himg Hready. pose proof Hready as (_ & [x Hx] & _).
  unfold after_model. rewrite Hx. unfold task_sound. cbn [pc goto]. by split_and!.
Qed.

Lemma check_model_sound (sh : Shared) (img : Image) (t : Task) :
  nonempty img ->
  (flags sh = (false, false) -> cache_miss sh /\ fetches sh = 0) ->
  (flags sh = (true, false) -> ready sh) ->
  flags sh <> (true, true) ->
  task_sound host (check_model host sh img t).1 (check_model host sh img t).2.
Proof.
  intros Himg Hidle Hready Hne. unfold check_model, flags in *.
  destruct (modelLoaded sh) eqn:Hl, (modelLoading sh) eqn:Hg; cbn [negb andb fst snd].
  - done.
  - apply after_model_sound; [done|]. by apply Hready.
  - unfold task_sound. cbn [pc goto]. split; [done|]. unfold flags. by rewrite Hl, Hg.
  - destruct Hidle as [Hmiss Hfetch]; [done|].
    unfold task_sound. cbn [pc goto]. split_and!; [done|exact Hmiss|].
    by rewrite fetches_log_io, idb_io_no_fetch, fetches_set_flags, Hfetch.
Qed.

(** A segment keeps the property of the call that runs it. *)
Lemma resume_sound (sh : Shared) (t : Task) :
  healthy host (modelUrl sh) -> task_sound host sh t ->
  (flags sh = (false, false) -> cache_miss sh /\ fetches sh = 0) ->
  (flags sh = (true, false) -> ready sh) ->
  flags sh <> (true, true) ->
  task_sound host (resume host sh t).1 (resume host sh t).2.
Proof.
  intros [[Hctx Hrun Henc] Hort Hcreate (r & stream & Hfetch & Hrok & Hbody & Hdone)]
    Hsound Hidle Hready Hne.
  destruct t as [b c tr]. unfold task_sound in Hsound. cbn [pc] in Hsound.
  unfold resume. cbn [pc]. destruct c.
  - (* Called *)
    destruct imageOrBase64 as [base64|img|v]; [done| |done].
    by apply check_model_sound.
  - (* AwaitDecode *)
    destruct Hsound as (img & -> & Himg). by apply check_model_sound.
  - (* AwaitCacheGet *)
    destruct Hsound as (Himg & Hmiss & Hf). unfold cache_miss in Hmiss.
    destruct (_getCachedModel _ _) as [res db]. simpl in Hmiss. subst res.
    rewrite Hort. split; [done|]. simpl.
    rewrite fetches_log_io, fetches_set_idb, Hf. done.
  - done.
  - (* AwaitDownload *)
    destruct Hsound as (Himg & Hf).
    pose proof (download_continue_outcome (fetch host (modelUrl sh)) (modelCacheKey sh)
                  (now host) (idb sh)) as Hout.
    rewrite Hfetch, Hrok, Hbody, Hdone in Hout. cbn [negb] in Hout.
    rewrite Hfetch, Hout. split; [done|]. simpl.
    by rewrite fetches_log_io, download_continue_no_fetch, fetches_set_idb, Hf.
  - (* AwaitCreate *)
    destruct Hsound as (Himg & Hf). destruct (Hcreate modelBuffer) as [x ->].
    unfold task_sound. cbn [pc goto fst snd]. by split_and!.
  - (* AwaitLoad *)
    destruct Hsound as (Himg & Hs & Hf). cbn [fst snd].
    apply after_model_sound; [done|]. by split_and!.
  - (* Polling *)
    destruct Hsound as (Himg & Hflags).
    destruct (modelLoading sh) eqn:Hg; [by split|]. cbn [fst snd].
    apply after_model_sound; [done|]. apply Hready.
    unfold flags in *. rewrite Hg in *. by destruct (modelLoaded sh).
  - (* AwaitPreprocess *)
    destruct Hsound as (Himg & -> & Hrdy). pose proof Hrdy as (_ & [x Hx] & _).
    unfold preprocess_call. rewrite Hctx, Hx. by split.
  - (* AwaitRun *)
    destruct Hsound as (Himg & Hrdy). destruct (Hrun s inputTensor) as [mask ->].
    destruct (applyMask_call_ok img mask Hctx Himg) as [canvas ->].
    cbn [return_base64 emit emit_all]. destruct b; [|done]. split; [by eexists|done].
  - (* AwaitEncode *)
    destruct (Henc canvas) as [res ->]. split; [by eexists|done].
  - done.
Qed.

Lemma task_sound_same (sh sh' : Shared) (t : Task) :
  modelCacheKey sh' = modelCacheKey sh -> flags sh' = flags sh ->
  fetches sh' = fetches sh -> idb sh' = idb sh -> session sh' = session sh ->
  task_sound host sh t -> task_sound host sh' t.
Proof.
  intros Hk Hfl Hfe Hidb Hs. unfold task_sound, ready, cache_miss.
  by rewrite Hk, Hfl, Hfe, Hidb, Hs.
Qed.

Lemma task_sound_other (sh sh' : Shared) (t : Task) :
  task_sound host sh t -> in_load (pc t) = false ->
  flags sh <> (true, false) -> flags sh' <> (false, false) ->
  task_sound host sh' t.
Proof.
  unfold task_sound, ready. intros Hsound Hl Hfl Hfl'.
  destruct (pc t); try done; try (by destruct Hsound as [? ?]).
  - by destruct Hsound as (_ & _ & ? & _).
  - by destruct Hsound as (_ & ? & _).
  - by destruct Hsound as (_ & ? & _).
Qed.

Lemma sound_resume (i : nat) (s : State) :
  sound host s -> sound host (resume_task host i s).
Proof.
  intros Hsound. destruct (tasks s !! i) as [t|] eqn:Ht;
    [|by rewrite resume_task_none].
  pose proof (coherent_resume host i s (snd_coherent _ _ Hsound)) as Hcoh'.
  destruct Hsound as [Hcoh Hhealthy Htasks Hloading Hready Hidle].
  pose proof (resume_effect host (shared s) t) as (Hurl & Hkey & _ & Heff).
  cbv zeta in Hurl, Hkey, Heff.
  pose proof (resume_sound (shared s) t Hhealthy (Htasks i t Ht) Hidle Hready
                (coh_flags s Hcoh)) as Ht'.
  pose proof (resume_task_shared host i s t Ht) as Hsh.
  pose proof (fun j => resume_task_lookup host i j s t Ht) as Hlook.
  pose proof (coh_loader_flags s Hcoh) as Hlf.
  pose proof (coh_unique s Hcoh) as Huniq.
  set (s' := resume_task host i s) in *. clearbody s'.
  set (sh' := (resume host (shared s) t).1) in *.
  set (t' := (resume host (shared s) t).2) in *. clearbody sh' t'.
  assert (forall j tj, tasks s' !! j = Some tj -> j <> i -> tasks s !! j = Some tj) as Hother.
  { intros j tj Hj Hne. rewrite Hlook in Hj. by case_decide. }
  assert (tasks s' !! i = Some t') as Hself.
  { rewrite Hlook. by case_decide. }
  assert (forall j tj, tasks s !! j = Some tj -> j <> i -> tasks s' !! j = Some tj) as Hkeep.
  { intros j tj Hj Hne. rewrite Hlook. by case_decide. }
  split; rewrite ?Hsh; [done|by rewrite Hurl| | | |].
  - (* every call *)
    intros j tj Hj. destruct (decide (j = i)) as [->|Hji]; [congruence|].
    apply Hother in Hj; [|done]. pose proof (Htasks j tj Hj) as Hsj.
    destruct (in_load (pc t)) eqn:Hl, (in_load (pc t')) eqn:Hl'.
    + destruct Heff as (Hfl & _).
      assert (in_load (pc tj) = false) as Hlj.
      { destruct (in_load (pc tj)) eqn:Hlj; [|done].
        by pose proof (Huniq j i tj t Hj Ht Hlj Hl). }
      apply (task_sound_other (shared s)); [done..| |].
      * by rewrite (Hlf i t Ht Hl).
      * by rewrite Hfl, (Hlf i t Ht Hl).
    + destruct Heff as (_ & Hcase).
      assert (in_load (pc tj) = false) as Hlj.
      { destruct (in_load (pc tj)) eqn:Hlj; [|done].
        by pose proof (Huniq j i tj t Hj Ht Hlj Hl). }
      apply (task_sound_other (shared s)); [done..| |].
      * by rewrite (Hlf i t Ht Hl).
      * destruct Hcase as [[_ ->]|(_ & -> & _)]; [by rewrite (Hlf i t Ht Hl)|done].
    + destruct Heff as (Hfl & Hfl' & _).
      assert (in_load (pc tj) = false) as Hlj.
      { destruct (in_load (pc tj)) eqn:Hlj; [|done].
        pose proof (Hlf j tj Hj Hlj) as Hft. by rewrite Hfl in Hft. }
      apply (task_sound_other (shared s)); [done..| |].
      * by rewrite Hfl.
      * by rewrite Hfl'.
    + destruct Heff as (Hfl & Hfe & Hidb & Hs).
      by apply (task_sound_same (shared s)).
  - (* a load in flight has its call *)
    intros Hfl'. destruct (in_load (pc t)) eqn:Hl, (in_load (pc t')) eqn:Hl'.
    + by exists i, t'.
    + destruct Heff as (_ & [[[e He] _]|(_ & Hfl2 & _)]).
      * unfold task_sound in Ht'. rewrite He in Ht'. by destruct Ht' as [[out Hout] _].
      * by rewrite Hfl2 in Hfl'.
    + by exists i, t'.
    + destruct Heff as (Hfl & _). rewrite Hfl in Hfl'.
      destruct (Hloading Hfl') as (j & tj & Hj & Hlj).
      exists j, tj. split; [|done]. apply Hkeep; [done|]. intros ->. congruence.
  - (* a loaded model has its session *)
    intros Hfl'. destruct (in_load (pc t)) eqn:Hl, (in_load (pc t')) eqn:Hl'.
    + destruct Heff as (Hfl & _). rewrite Hfl, (Hlf i t Ht Hl) in Hfl'. done.
    + destruct Heff as (Hfe & [[_ Hfl]|([img Himg] & Hfl & Hs)]).
      * rewrite Hfl, (Hlf i t Ht Hl) in Hfl'. done.
      * pose proof (Htasks i t Ht) as Hsi. unfold task_sound in Hsi.
        rewrite Himg in Hsi. destruct Hsi as (_ & Hsess & Hf).
        unfold ready. by rewrite Hs, Hfe.
    + destruct Heff as (_ & Hfl & _). by rewrite Hfl in Hfl'.
    + destruct Heff as (Hfl & Hfe & Hidb & Hs). rewrite Hfl in Hfl'.
      destruct (Hready Hfl') as (? & ? & ?). unfold ready. by rewrite Hfl, Hs, Hfe.
  - (* an idle instance has an empty cache *)
    intros Hfl'. destruct (in_load (pc t)) eqn:Hl, (in_load (pc t')) eqn:Hl'.
    + destruct Heff as (Hfl & _). rewrite Hfl, (Hlf i t Ht Hl) in Hfl'. done.
    + destruct Heff as (_ & [[_ Hfl]|(_ & Hfl & _)]).
      * rewrite Hfl, (Hlf i t Ht Hl) in Hfl'. done.
      * by rewrite Hfl in Hfl'.
    + destruct Heff as (_ & Hfl & _). by rewrite Hfl in Hfl'.
    + destruct Heff as (Hfl & Hfe & Hidb & Hs). rewrite Hfl in Hfl'.
      destruct (Hidle Hfl') as (Hmiss & Hf). unfold cache_miss in *.
      by rewrite Hkey, Hidb, Hfe.
Qed.

End Sound.

Section Liveness.

Variable host : Host.

(** A segment either brings the call closer to its end or leaves the
    state as it is, which happens only to a settled call and to a call
    polling while [modelLoading] is set. *)
Lemma resume_rank (sh : Shared) (t : Task) :
  rank (pc (resume host sh t).2) < rank (pc t) \/
  (resume host sh t = (sh, t) /\
   ((exists r, pc t = Settled r) \/
    (exists img, pc t = Polling img /\ modelLoading sh = true))).
Proof.
  destruct t as [b c tr]. unfold resume. cbn [pc].
  destruct c; unfold check_model, after_model; simpl.
  all: repeat case_match; simpl; try (left; lia).
  all: right; split; eauto.
Qed.

Lemma sum_list_insert (f : Task -> nat) (l : list Task) (i : nat) (t t' : Task) :
  l !! i = Some t ->
  sum_list (f <$> <[i := t']> l) + f t = sum_list (f <$> l) + f t'.
Proof.
  revert i. induction l as [|x l IH]; intros i Hi; [done|].
  destruct i as [|i].
  - injection Hi as ->.
    change (sum_list (f <$> <[0 := t']> (t :: l))) with (f t' + sum_list (f <$> l)).
    change (sum_list (f <$> t :: l)) with (f t + sum_list (f <$> l)). lia.
  - specialize (IH i Hi).
    change (sum_list (f <$> <[S i := t']> (x :: l)))
      with (f x + sum_list (f <$> <[i := t']> l)).
    change (sum_list (f <$> x :: l)) with (f x + sum_list (f <$> l)). lia.
Qed.

Lemma resume_task_rank (i : nat) (s : State) :
  total_rank (resume_task host i s) < total_rank s \/ resume_task host i s = s.
Proof.
  destruct (tasks s !! i) as [t|] eqn:Ht; [|right; by apply resume_task_none].
  unfold resume_task. rewrite Ht.
  destruct (resume_rank (shared s) t) as [Hlt|[Heq _]].
  - left. destruct (resume host (shared s) t) as [sh' t']. unfold total_rank. simpl in *.
    pose proof (sum_list_insert (fun t => rank (pc t)) (tasks s) i t t' Ht). lia.
  - right. rewrite Heq. destruct s as [sh ts]. simpl in *.
    by rewrite list_insert_id.
Qed.

Lemma resume_task_length (i : nat) (s : State) :
  length (tasks (resume_task host i s)) = length (tasks s).
Proof.
  unfold resume_task. destruct (tasks s !! i) as [t|]; [|done].
  destruct (resume host (shared s) t). simpl. apply length_insert.
Qed.

Lemma total_rank_zero (s : State) :
  total_rank s = 0 -> forall i t, tasks s !! i = Some t -> exists r, pc t = Settled r.
Proof.
  unfold total_rank. intros Hzero i t Hi.
  assert (rank (pc t) = 0) as Hr.
  { revert i Hi Hzero. induction (tasks s) as [|x l IH]; intros i Hi Hzero; [done|].
    change (rank (pc x) + sum_list ((fun t => rank (pc t)) <$> l) = 0) in Hzero.
    destruct i as [|i].
    - injection Hi as ->. lia.
    - apply (IH i Hi). lia. }
  destruct (pc t); try discriminate. eauto.
Qed.

Lemma total_rank_pos (s : State) :
  total_rank s <> 0 -> exists i t, tasks s !! i = Some t /\ rank (pc t) <> 0.
Proof.
  unfold total_rank. induction (tasks s) as [|x l IH]; intros Hpos; [done|].
  change (rank (pc x) + sum_list ((fun t => rank (pc t)) <$> l) <> 0) in Hpos.
  destruct (decide (rank (pc x) = 0)) as [Hx|Hx].
  - destruct IH as (i & t & Hi & Ht); [lia|]. by exists (S i), t.
  - by exists 0, x.
Qed.

(** While a call is unsettled, some call can be resumed with effect. *)
Lemma sound_progress (s : State) :
  sound host s -> total_rank s <> 0 ->
  exists i, i < length (tasks s) /\ total_rank (resume_task host i s) < total_rank s.
Proof.
  intros Hsound Hpos. destruct (total_rank_pos s Hpos) as (j & tj & Hj & Hrj).
  assert (forall i t, tasks s !! i = Some t ->
            rank (pc (resume host (shared s) t).2) < rank (pc t) ->
            exists i, i < length (tasks s) /\
                      total_rank (resume_task host i s) < total_rank s) as Hdec.
  { intros i t Hi Hlt. exists i. split; [by eapply lookup_lt_Some|].
    unfold resume_task. rewrite Hi.
    destruct (resume host (shared s) t) as [sh' t']. unfold total_rank. simpl in *.
    pose proof (sum_list_insert (fun t => rank (pc t)) (tasks s) i t t' Hi). lia. }
  destruct (resume_rank (shared s) tj) as [Hlt|[_ [[r Hr]|(img & Hpoll & Hloading)]]].
  - by apply (Hdec j tj).
  - rewrite Hr in Hrj. done.
  - pose proof (snd_tasks _ _ Hsound j tj Hj) as Hsj. unfold task_sound in Hsj.
    rewrite Hpoll in Hsj. destruct Hsj as [_ Hfl].
    pose proof (coh_flags s (snd_coherent _ _ Hsound)) as Hne.
    assert (flags (shared s) = (false, true)) as Hflags.
    { unfold flags in *. rewrite Hloading in *. by destruct (modelLoaded (shared s)). }
    destruct (snd_loading _ _ Hsound Hflags) as (i & t & Hi & Hl).
    destruct (resume_rank (shared s) t) as [Hlt|[_ [[r Hr]|(img' & Hpoll' & _)]]].
    + by apply (Hdec i t).
    + by rewrite Hr in Hl.
    + by rewrite Hpoll' in Hl.
Qed.

Lemma run_S (sched : nat -> nat) (s : State) (n : nat) :
  run host sched s (S n) = resume_task host (sched n) (run host sched s n).
Proof. reflexivity. Qed.

Lemma sound_run (sched : nat -> nat) (s : State) (n : nat) :
  sound host s -> sound host (run host sched s n).
Proof.
  intros Hsound. induction n as [|n IH]; [done|]. rewrite run_S. by apply sound_resume.
Qed.

Lemma run_length (sched : nat -> nat) (s : State) (n : nat) :
  length (tasks (run host sched s n)) = length (tasks s).
Proof.
  induction n as [|n IH]; [done|]. by rewrite run_S, resume_task_length.
Qed.

(** Under a fair schedule every call settles. *)
Lemma fair_run_settles (sched : nat -> nat) (s : State) :
  sound host s -> fair (length (tasks s)) sched ->
  exists N, total_rank (run host sched s N) = 0.
Proof.
  intros Hsound Hfair.
  assert (forall R n, total_rank (run host sched s n) <= R ->
            exists N, total_rank (run host sched s N) = 0) as Hind.
  { induction R as [|R IHR]; intros n HR.
    - exists n. lia.
    - destruct (decide (total_rank (run host sched s n) = 0)) as [Hzero|Hpos];
        [by exists n|].
      destruct (sound_progress _ (sound_run sched s n Hsound) Hpos) as (i & Hi & Hlt).
      rewrite run_length in Hi.
      destruct (Hfair i n Hi) as (n' & Hle & Hn').
      assert (forall d m, m + d = n' -> run host sched s m = run host sched s n ->
                exists N, total_rank (run host sched s N) = 0) as Hwait.
      { induction d as [|d IHd]; intros m Hm Hsame.
        - apply (IHR (S m)). rewrite run_S, Hsame.
          replace m with n' by lia. rewrite Hn'. lia.
        - destruct (resume_task_rank (sched m) (run host sched s m)) as [Hdec|Hstut].
          + apply (IHR (S m)). rewrite run_S. rewrite Hsame in Hdec |- *. lia.
          + apply (IHd (S m)); [lia|]. rewrite run_S, Hstut. exact Hsame. }
      apply (Hwait (n' - n) n); [lia|done]. }
  by apply (Hind (total_rank (run host sched s 0)) 0).
Qed.

Lemma run_settled_stable (sched : nat -> nat) (s : State) (N n : nat) :
  total_rank (run host sched s N) = 0 -> N <= n ->
  run host sched s n = run host sched s N.
Proof.
  intros Hzero Hle. induction Hle as [|n Hle IH]; [done|].
  rewrite run_S, IH.
  destruct (resume_task_rank (sched n) (run host sched s N)) as [Hlt|Heq]; [lia|done].
Qed.

End Liveness.

Lemma sound_two_calls (host : Host) (sh : Shared) (a b : Input) (ra rb : bool) :
  flags sh = (false, false) -> fetches sh = 0 ->
  healthy host (modelUrl sh) -> cache_miss sh ->
  valid_input host a -> valid_input host b ->
  sound host (call b rb (call a ra (initial sh))).
Proof.
  intros Hflags Hfetch Hhealthy Hmiss Ha Hb. split; simpl; try done.
  - do 2 apply coherent_call. by apply coherent_initial.
  - intros i t Hi. destruct i as [|[|i]]; simpl in Hi; [| |done].
    + by injection Hi as <-.
    + by injection Hi as <-.
  - by rewrite Hflags.
  - by rewrite Hflags.
Qed.

(** C5. On every instance made by the constructor, in every state that
    calls arriving and running in any order can reach, at most one call is
    inside a model load and at most one download has been started, and a
    call that finds [modelLoading] set enters the polling loop without
    touching the network or the storage. When the cache holds no model,
    the host fails at nothing and both inputs are valid, two calls made at
    once and resumed by any fair schedule both resolve, from some step on
    for ever, and exactly one download has been started. *)
Theorem one_load_for_concurrent_calls (host : Host) (url key : option string)
    (idb0 : IndexedDB) :
  let sh0 := constructor url key idb0 in
  (forall s, reachable_from host (initial sh0) s ->
     at_most_one_load s /\ loads_in_flight s <= 1 /\ downloads s <= 1 /\
     (flags (shared s) = (false, true) ->
      forall img t,
        check_model host (shared s) img t
        = (shared s, goto (Polling img) (emit 10 "Model is loading, please wait." t)))) /\
  (forall a b ra rb sched,
     healthy host (modelUrl sh0) -> cache_miss sh0 ->
     valid_input host a -> valid_input host b -> fair 2 sched ->
     exists N, forall n, N <= n ->
       let s := run host sched (call b rb (call a ra (initial sh0))) n in
       downloads s = 1 /\
       exists ta tb, tasks s = [ta; tb] /\ succeeded ta /\ succeeded tb).
Proof.
  cbv zeta. split.
  - intros s Hreach.
    assert (coherent s) as Hcoh.
    { eapply coherent_reachable; [|exact Hreach]. by apply coherent_initial. }
    split; [apply (coh_unique s Hcoh)|].
    split; [apply unique_load_count, (coh_unique s Hcoh)|].
    split; [apply (coh_fetches s Hcoh)|].
    intros Hflags img t. by apply check_model_loading.
  - intros a b ra rb sched Hhealthy Hmiss Ha Hb Hfair.
    set (s0 := call b rb (call a ra (initial (constructor url key idb0)))).
    assert (sound host s0) as Hsound by (by apply sound_two_calls).
    destruct (fair_run_settles host sched s0 Hsound Hfair) as [N HN].
    exists N. intros n Hle. rewrite (run_settled_stable host sched s0 N n HN Hle).
    pose proof (sound_run host sched s0 N Hsound) as HsN.
    pose proof (run_length host sched s0 N) as Hlen.
    destruct (tasks (run host sched s0 N)) as [|ta [|tb [|tc ts]]] eqn:Hts;
      try discriminate.
    assert (forall i t, tasks (run host sched s0 N) !! i = Some t ->
              succeeded t /\ ready (shared (run host sched s0 N))) as Hdone.
    { intros i t Hi. destruct (total_rank_zero _ HN i t Hi) as [r Hr].
      pose proof (snd_tasks _ _ HsN i t Hi) as Hs. unfold task_sound in Hs.
      rewrite Hr in Hs. destruct Hs as [[out ->] Hready]. split; [by exists out|done]. }
    rewrite Hts in Hdone.
    destruct (Hdone 0 ta eq_refl) as [Hta (_ & _ & Hf)].
    destruct (Hdone 1 tb eq_refl) as [Htb _].
    split; [exact Hf|]. by exists ta, tb.
Qed.

Lemma fair_alternation : fair 2 (fun n => n mod 2).
Proof.
  intros i t Hi. exists (2 * t + i). split; [lia|].
  rewrite Nat.add_comm, Nat.mul_comm, Nat.Div0.mod_add. by apply Nat.mod_small.
Qed.

Lemma one_load_for_concurrent_calls_witness :
  exists N, forall n, N <= n ->
    let s := run ex_host (fun n => n mod 2)
               (call (InString "data:image/png;base64,AAAA") true
                  (call (InImage ex_img) false (initial ex_fresh))) n in
    downloads s = 1 /\
    exists ta tb, tasks s = [ta; tb] /\ succeeded ta /\ succeeded tb.
Proof.
  apply (one_load_for_concurrent_calls ex_host None None NotCreated).
  - apply ex_host_healthy.
  - reflexivity.
  - apply ex_img_nonempty.
  - exists ex_img. split; [reflexivity|apply ex_img_nonempty].
  - apply fair_alternation.
Defined.

(** The instance after a call whose download has been started on a host
    without network. *)
Lemma ex_offline_reachable : reachable_from ex_host_offline (initial ex_fresh) ex_loading.
Proof.
  eapply rtc_l; [apply step_call|]. eapply rtc_l; [apply step_resume|].
  eapply rtc_l; [apply step_resume|]. apply rtc_refl.
Qed.

Lemma failed_load_blocks_instance_witness :
  let failed := resume_task ex_host_offline 0 ex_loading in
  let s' := resume_task ex_host_offline 1 (call (InImage ex_img) true failed) in
  modelLoading (shared s') = true /\ modelLoaded (shared s') = false /\
  downloads s' = downloads failed.
Proof.
  cbv zeta.
  assert (exists t, tasks ex_loading !! 0 = Some t /\ inside_load (pc t) = true /\
            pc (resume ex_host_offline (shared ex_loading) t).2
            = Settled (Throw (HostError FetchCall))) as (t & Ht & Hin & Hfail).
  { eexists. split; [vm_compute; reflexivity|]. split; vm_compute; reflexivity. }
  destruct (failed_load_blocks_instance ex_host_offline None None NotCreated
              ex_loading 0 t (HostError FetchCall) ex_offline_reachable Ht Hin Hfail
              (resume_task ex_host_offline 1
                 (call (InImage ex_img) true (resume_task ex_host_offline 0 ex_loading))))
    as (H1 & H2 & _ & H4 & _).
  - eapply rtc_l; [apply step_call|]. eapply rtc_l; [apply step_resume|]. apply rtc_refl.
  - exact (conj H1 (conj H2 H4)).
Defined.

(** * Further properties *)

(** ** The model cache, key by key *)

(** X1. Putting a model under one key leaves what [_getCachedModel]
    returns for every other key as it was. *)
Theorem cache_put_frame (key key' : string) (now : Z) (buf : list Z) (idb : IndexedDB) :
  key <> key' ->
  (_getCachedModel key' (_cacheModel key now buf idb).2).1 = (_getCachedModel key' idb).1.
Proof.
  intros Hne. unfold _getCachedModel.
  destruct idb; simpl; try done; by rewrite lookup_insert_ne.
Qed.

Lemma cache_put_frame_witness :
  (_getCachedModel "rmbg_model_v1.4"
     (_cacheModel "other_model" 7 [9; 9]%Z (idb ex_cached)).2).1
  = (_getCachedModel "rmbg_model_v1.4" (idb ex_cached)).1.
Proof. apply cache_put_frame. discriminate. Defined.

(** X2. When the storage can be opened, a second put under the same key
    replaces the first one: the get returns the buffer put last. *)
Theorem cache_put_overwrites (key : string) (now1 now2 : Z) (buf1 buf2 : list Z)
    (idb : IndexedDB) :
  available idb = true ->
  (_getCachedModel key
     (_cacheModel key now2 buf2 (_cacheModel key now1 buf1 idb).2).2).1 = Ok (Some buf2).
Proof.
  intros Ha. unfold _getCachedModel.
  destruct idb; simpl; try done; by rewrite lookup_insert_eq.
Qed.

Lemma cache_put_overwrites_witness :
  (_getCachedModel "k" (_cacheModel "k" 2 [4; 5]%Z (_cacheModel "k" 1 [1]%Z NotCreated).2).2).1
  = Ok (Some [4; 5]%Z).
Proof. apply cache_put_overwrites. reflexivity. Defined.

(** X3. [_getCachedModel] only reads: a get or a put that follows it gives
    what it would have given without it, for every key and every state of
    the storage, and the storage can be opened after it exactly when it
    could before. *)
Theorem cache_get_reads_only (key key' : string) (now : Z) (buf : list Z) (idb : IndexedDB) :
  let after := (_getCachedModel key idb).2 in
  (_getCachedModel key' after).1 = (_getCachedModel key' idb).1 /\
  (_cacheModel key' now buf after).2 = (_cacheModel key' now buf idb).2 /\
  available after = available idb.
Proof. cbv zeta. unfold _getCachedModel. by destruct idb. Qed.

(** ** The download and the cache *)

(** X4. When the response is ok and read to the end and the storage can
    be opened, the model that [_downloadAndCacheModelWithProgress] returns
    is the model a later [_getCachedModel] finds under the key. *)
Theorem download_then_cached (fetch : string -> option Response) (url key : string)
    (now : Z) (idb : IndexedDB) (r : Response) (stream : Stream) :
  fetch url = Some r -> ok r = true -> body r = Some stream ->
  stream_completes stream = true -> available idb = true ->
  let d := _downloadAndCacheModelWithProgress fetch url key now idb in
  outcome d = Ok (concat (stream_chunks stream)) /\
  (_getCachedModel key (idb_after d)).1 = Ok (Some (concat (stream_chunks stream))).
Proof.
  intros Hfetch Hok Hbody Hdone Ha. cbv zeta.
  unfold _downloadAndCacheModelWithProgress. cbn [outcome idb_after].
  pose proof (download_continue_outcome (fetch url) key now idb) as Hout.
  pose proof (download_continue_state (fetch url) key now idb) as Hstate.
  cbv zeta in Hstate. rewrite Hfetch, Hok, Hbody, Hdone in Hout. cbn [negb] in Hout.
  rewrite Hfetch in *. rewrite Hout in Hstate. destruct Hstate as (-> & _).
  split; [done|]. unfold _getCachedModel.
  destruct idb; simpl in *; try done; by rewrite lookup_insert_eq.
Qed.

Lemma download_then_cached_witness :
  (_getCachedModel "k"
     (idb_after (_downloadAndCacheModelWithProgress (fun _ => Some ex_response)
                   "u" "k" 0 NotCreated))).1 = Ok (Some [1; 2; 3; 4; 5; 6]%Z).
Proof.
  apply (download_then_cached (fun _ => Some ex_response) "u" "k" 0 NotCreated
           ex_response (Chunk [1; 2; 3]%Z (Chunk [4; 5]%Z (Chunk [6]%Z Done))));
    reflexivity.
Defined.

(** X5. A download that fails, for whatever reason, leaves the storage as
    it was and makes no storage access: its only access is the fetch. *)
Theorem failed_download_keeps_cache (fetch : string -> option Response)
    (url key : string) (now : Z) (idb : IndexedDB) (e : Error) :
  let d := _downloadAndCacheModelWithProgress fetch url key now idb in
  outcome d = Throw e ->
  idb_after d = idb /\ accesses d = [NetFetch url].
Proof.
  cbv zeta. unfold _downloadAndCacheModelWithProgress. cbn [outcome idb_after accesses].
  intros He. pose proof (download_continue_state (fetch url) key now idb) as Hstate.
  cbv zeta in Hstate. rewrite He in Hstate. destruct Hstate as [-> ->]. done.
Qed.

Lemma failed_download_keeps_cache_witness :
  idb_after (_downloadAndCacheModelWithProgress (fun _ => None) "u" "k" 0 (idb ex_cached))
  = idb ex_cached.
Proof.
  apply (failed_download_keeps_cache (fun _ => None) "u" "k" 0 (idb ex_cached)
           (HostError FetchCall)).
  reflexivity.
Defined.

Lemma changes_adjacent_differ (last : number) (l : list number) :
  adjacent_differ last (changes last l) = true.
Proof.
  revert last. induction l as [|p l IH]; intros last; [done|]. simpl.
  destruct (number_neq p last) eqn:Hp; [|apply IH].
  simpl. by rewrite Hp, IH.
Qed.

(** X6. In the reading loop, whatever the chunks and the length announced,
    every percentage emitted differs from the one emitted before it, the
    first one from the 10 the caller emitted; and when the length announced
    is not positive the loop emits nothing. *)
Theorem read_loop_no_repeats (totalSize : Z) (s : Stream) :
  let evs := (read_loop totalSize s [] 0 (of_Z 10) []).2 in
  adjacent_differ (of_Z 10) (percents evs) = true /\
  if (totalSize >? 0)%Z then True else evs = [].
Proof.
  cbv zeta. pose proof (read_loop_emitted totalSize s [] 0 (of_Z 10) []) as Hevs.
  change (percents []) with (@nil number) in Hevs. rewrite app_nil_l in Hevs.
  rewrite Hevs. destruct (totalSize >? 0)%Z.
  - split; [apply changes_adjacent_differ|done].
  - split; [done|]. by destruct (read_loop _ _ _ _ _ _).2.
Qed.

(** X7. [_downloadAndCacheModel] and [_downloadAndCacheModelWithProgress]
    return the same outcome, leave the same storage and make the same
    accesses whenever [fetch] rejects, the status is not ok or the response
    has a body; on an ok response with a null body the first returns and
    caches an empty model where the second throws 'Response body is
    null'. *)
Theorem download_variants (fetch : string -> option Response) (url key : string)
    (now : Z) (idb : IndexedDB) :
  let plain := _downloadAndCacheModel fetch url key now idb in
  let streamed := _downloadAndCacheModelWithProgress fetch url key now idb in
  match fetch url with
  | Some r =>
      if ok r && negb (bool_decide (is_Some (body r))) then
        outcome plain = Ok [] /\
        idb_after plain = (_cacheModel key now [] idb).2 /\
        outcome streamed = Throw (DownloadError "Response body is null") /\
        idb_after streamed = idb
      else
        outcome plain = outcome streamed /\ idb_after plain = idb_after streamed /\
        accesses plain = accesses streamed
  | None =>
      outcome plain = outcome streamed /\ idb_after plain = idb_after streamed /\
      accesses plain = accesses streamed
  end.
Proof.
  cbv zeta. unfold _downloadAndCacheModel, _downloadAndCacheModelWithProgress.
  cbn [outcome idb_after accesses].
  pose proof (download_continue_outcome (fetch url) key now idb) as Hout.
  pose proof (download_continue_state (fetch url) key now idb) as Hstate.
  cbv zeta in Hstate. rewrite Hout in Hstate. rewrite Hout. clear Hout.
  destruct (fetch url) as [r|]; [|by destruct Hstate as [-> ->]].
  unfold arrayBuffer. destruct (ok r); cbn [negb andb] in *.
  2:{ by destruct Hstate as [-> ->]. }
  destruct (body r) as [stream|].
  - rewrite bool_decide_eq_true_2 by eauto. cbn [negb].
    destruct (stream_completes stream).
    + destruct Hstate as (-> & -> & _). by rewrite cacheModel_ok.
    + by destruct Hstate as [-> ->].
  - rewrite bool_decide_eq_false_2 by (by intros [? ?]). cbn [negb].
    destruct Hstate as [-> _]. by rewrite cacheModel_ok.
Qed.

(** ** The compositor and the preprocessor, further *)

Lemma applyMask_loop_alpha (maskData : list number) (w h : nat) (d : list Z) (k : nat) :
  length d = 4 * (w * h) -> k mod 4 = 3 -> k < length d ->
  exists v, (k, v) ∈ alpha_writes maskData w h /\
            applyMask_loop maskData w h d !! k = Some v.
Proof.
  intros Hlen Hmod Hlt.
  assert (k ∈ (alpha_writes maskData w h).*1) as Hin.
  { rewrite alpha_writes_positions. apply list_elem_of_fmap.
    exists (k / 4). split.
    - pose proof (Nat.div_mod_eq k 4). lia.
    - assert (k / 4 < h * w) by (apply Nat.Div0.div_lt_upper_bound; lia).
      apply elem_of_seq. lia. }
  apply list_elem_of_fmap in Hin as ([k' v] & -> & Hin). exists v. split; [done|].
  rewrite applyMask_loop_stores. apply foldl_store_in; [apply alpha_writes_NoDup|done..].
Qed.

(** X8. The result of [_applyMask] depends on the red, green and blue
    bytes of the image and on the mask only: two images of the same
    dimensions that differ in alpha bytes only give the same canvas, so
    applying the same mask a second time changes nothing. *)
Theorem applyMask_ignores_alpha (im im' : ImageData) (maskData : list number) :
  length (data im) = 4 * (width im * height im) ->
  width im' = width im -> height im' = height im ->
  length (data im') = length (data im) ->
  (forall k, k mod 4 <> 3 -> data im' !! k = data im !! k) ->
  _applyMask im' maskData = _applyMask im maskData /\
  _applyMask (_applyMask im maskData) maskData = _applyMask im maskData.
Proof.
  assert (forall a b : ImageData,
            length (data a) = 4 * (width a * height a) ->
            width b = width a -> height b = height a ->
            length (data b) = length (data a) ->
            (forall k, k mod 4 <> 3 -> data b !! k = data a !! k) ->
            _applyMask b maskData = _applyMask a maskData) as Hsame.
  { intros a b Hlen Hw Hh Hlen' Hrgb. unfold _applyMask. rewrite Hw, Hh. f_equal.
    apply list_eq. intros k.
    destruct (decide (k mod 4 = 3)) as [Hk|Hk].
    - destruct (decide (k < length (data a))) as [Hlt|Hge].
      + destruct (applyMask_loop_alpha maskData (width a) (height a) (data a) k)
          as (v & Hv & ->); [done..|].
        rewrite applyMask_loop_stores.
        apply foldl_store_in; [apply alpha_writes_NoDup|done|congruence].
      + rewrite !lookup_ge_None_2; [done|..];
          rewrite applyMask_loop_stores, foldl_store_length; lia.
    - rewrite !applyMask_loop_stores, !foldl_store_notin; [by apply Hrgb|..];
        rewrite alpha_writes_positions; intros Hin;
        apply list_elem_of_fmap in Hin as (j & -> & _);
        apply Hk; by rewrite Nat.add_comm, Nat.Div0.mod_add.
  }
  intros Hlen Hw Hh Hlen' Hrgb. split; [by apply Hsame|].
  apply Hsame; try done.
  - unfold _applyMask. simpl. rewrite applyMask_loop_stores. apply foldl_store_length.
  - intros k Hk. unfold _applyMask. simpl.
    rewrite applyMask_loop_stores. apply foldl_store_notin.
    rewrite alpha_writes_positions. intros Hin.
    apply list_elem_of_fmap in Hin as (j & -> & _).
    apply Hk. by rewrite Nat.add_comm, Nat.Div0.mod_add.
Qed.

Lemma applyMask_ignores_alpha_witness :
  _applyMask (_applyMask ex_image2 ex_mask5) ex_mask5 = _applyMask ex_image2 ex_mask5.
Proof.
  apply (applyMask_ignores_alpha ex_image2 ex_image2 ex_mask5); try reflexivity.
Defined.

Lemma mask_alpha_falsy (maskData : list number) (w h x y : nat) :
  Forall (fun v => falsy v = true) maskData -> mask_alpha maskData w h x y = 0%Z.
Proof.
  intros Hall. unfold mask_alpha.
  assert (forall k, or_zero (typed_get maskData k) = pos_zero) as ->; [|by vm_compute].
  intros k. unfold typed_get. destruct (to_Z k) as [i|]; [|done].
  destruct (0 <=? i)%Z; [|done].
  destruct (maskData !! Z.to_nat i) as [v|] eqn:Hv; [|done].
  rewrite Forall_forall in Hall.
  assert (falsy v = true) as Hf by (apply Hall, list_elem_of_lookup; eauto).
  by destruct v.
Qed.

(** X9. A mask without any truthy value - all zeros, NaN, or no element at
    all - makes every pixel fully transparent: the alpha byte of every
    pixel of the result is 0. *)
Theorem applyMask_empty_mask (im : ImageData) (maskData : list number) (x y : nat) :
  length (data im) = 4 * (width im * height im) ->
  Forall (fun v => falsy v = true) maskData ->
  x < width im -> y < height im ->
  data (_applyMask im maskData) !! ((y * width im + x) * 4 + 3) = Some 0%Z.
Proof.
  intros Hlen Hall Hx Hy. unfold _applyMask. cbn [data].
  rewrite applyMask_loop_stores. apply foldl_store_in.
  - apply alpha_writes_NoDup.
  - apply elem_of_alpha_writes. exists x, y.
    split; [done|]. split; [done|]. split; [done|]. by rewrite mask_alpha_falsy.
  - rewrite Hlen. nia.
Qed.

Lemma applyMask_empty_mask_witness :
  data (_applyMask ex_image2 []) !! ((1 * 2 + 1) * 4 + 3) = Some 0%Z.
Proof.
  apply (applyMask_empty_mask ex_image2 [] 1 1);
    first [reflexivity | by constructor | simpl; lia].
Defined.

(** The table of the values [_preprocessImage] stores, byte by byte, is
    strictly increasing: every pair is compared. *)
Lemma normalized_bytes_ordered :
  (let table := (fun k => (k, fround (div (of_nat k) (of_Z 255)))) <$> seq 0 256 in
   forallb (fun a => forallb (fun b => implb (a.1 <? b.1) (SFltb a.2 b.2)) table) table)
  = true.
Proof. by vm_compute. Qed.

(** X10. The normalisation of [_preprocessImage] keeps the order of the
    bytes: a larger byte is stored as a strictly larger float32, from 0.0
    for the byte 0 up to exactly 1.0 for the byte 255; distinct bytes give
    distinct tensor values. *)
Theorem normalized_strictly_increasing (a b : Z) :
  is_byte a -> is_byte b -> (a < b)%Z ->
  SFltb (fround (div (of_Z a) (of_Z 255))) (fround (div (of_Z b) (of_Z 255))) = true /\
  fround (div (of_Z 0) (of_Z 255)) = f32_zero /\
  fround (div (of_Z 255) (of_Z 255)) = f32_one.
Proof.
  intros Ha Hb Hlt. unfold is_byte in *. split; [|split; by vm_compute].
  pose proof normalized_bytes_ordered as Hall. cbv zeta in Hall.
  rewrite forallb_forall in Hall.
  assert (forall k, (0 <= k <= 255)%Z ->
            In (Z.to_nat k, fround (div (of_Z k) (of_Z 255)))
               ((fun k => (k, fround (div (of_nat k) (of_Z 255)))) <$> seq 0 256)) as Hin.
  { intros k Hk. apply in_map_iff. exists (Z.to_nat k). split.
    - unfold of_nat. by rewrite Z2Nat.id by lia.
    - apply in_seq. lia. }
  pose proof (Hall _ (Hin a Ha)) as Hrow. rewrite forallb_forall in Hrow.
  pose proof (Hrow _ (Hin b Hb)) as Hcell. cbn [fst snd] in Hcell.
  assert ((Z.to_nat a <? Z.to_nat b) = true) as Hab by (apply Nat.ltb_lt; lia).
  by rewrite Hab in Hcell.
Qed.

Lemma normalized_strictly_increasing_witness :
  SFltb (fround (div (of_Z 127) (of_Z 255))) (fround (div (of_Z 128) (of_Z 255))) = true.
Proof.
  apply (normalized_strictly_increasing 127 128); unfold is_byte; lia.
Defined.

(** ** The instance once its model is loaded *)

Section Loaded.

Variable host : Host.

Lemma resume_when_loaded (sh : Shared) (t : Task) :
  flags sh = (true, false) -> in_load (pc t) = false ->
  (resume host sh t).1 = sh /\ in_load (pc (resume host sh t).2) = false.
Proof.
  unfold flags. intros [= Hl Hg] Hload. destruct t as [b c tr].
  unfold resume. cbn [pc] in *.
  destruct c; try discriminate; unfold check_model, after_model; rewrite ?Hl, ?Hg; simpl.
  all: repeat case_match; simpl; try done.
Qed.

Lemma frozen_step (s0 s s' : State) :
  flags (shared s0) = (true, false) -> frozen_at s0 s -> step host s s' -> frozen_at s0 s'.
Proof.
  intros Hflags [Hsh Hnone] Hstep. destruct Hstep as [input b s|i s].
  - split; [done|]. intros j tj Hj. simpl in Hj.
    apply lookup_app_Some in Hj as [Hj|[_ Hj]]; [by eapply Hnone|].
    by apply list_lookup_singleton_Some in Hj as [_ <-].
  - destruct (tasks s !! i) as [t|] eqn:Ht; [|by rewrite resume_task_none].
    destruct (resume_when_loaded (shared s) t) as [Hsame Hout];
      [by rewrite Hsh|by eapply Hnone|].
    split.
    + by rewrite (resume_task_shared host i s t Ht), Hsame.
    + intros j tj Hj. rewrite (resume_task_lookup host i j s t Ht) in Hj.
      case_decide; [by injection Hj as <-|by eapply Hnone].
Qed.

Lemma frozen_reachable (s0 s s' : State) :
  flags (shared s0) = (true, false) -> frozen_at s0 s -> reachable_from host s s' ->
  frozen_at s0 s'.
Proof.
  intros Hflags Hfrozen Hreach. induction Hreach as [|s1 s2 s3 Hstep _ IH]; [done|].
  apply IH. by eapply frozen_step.
Qed.

(** X11. Once the model of an instance is loaded, nothing that happens on
    the instance changes its shared state again, whatever calls arrive, on
    whatever host and in whatever order they run: the session is kept, the
    flags stay, no download is started and the storage is not accessed. *)
Theorem loaded_instance_frozen (url key : option string) (idb0 : IndexedDB)
    (s s' : State) :
  reachable_from host (initial (constructor url key idb0)) s ->
  modelLoaded (shared s) = true ->
  reachable_from host s s' ->
  shared s' = shared s.
Proof.
  intros Hreach Hloaded Hreach'.
  assert (coherent s) as Hcoh.
  { eapply coherent_reachable; [|exact Hreach]. by apply coherent_initial. }
  assert (flags (shared s) = (true, false)) as Hflags.
  { pose proof (coh_flags s Hcoh) as Hne. unfold flags in *. rewrite Hloaded in *.
    by destruct (modelLoading (shared s)). }
  assert (frozen_at s s) as Hfrozen.
  { split; [done|]. intros j tj Hj. destruct (in_load (pc tj)) eqn:Hl; [|done].
    pose proof (coh_loader_flags s Hcoh j tj Hj Hl) as Hf. by rewrite Hflags in Hf. }
  by destruct (frozen_reachable s s s' Hflags Hfrozen Hreach').
Qed.

End Loaded.

Lemma run_reachable (host : Host) (sched : nat -> nat) (s : State) (n : nat) :
  reachable_from host s (run host sched s n).
Proof.
  induction n as [|n IH]; [apply rtc_refl|].
  eapply rtc_r; [exact IH|]. simpl. apply step_resume.
Qed.

Lemma run_alone_reachable (host : Host) (fuel : nat) (input : Input) (b : bool)
    (sh : Shared) :
  reachable_from host (initial sh) (run_alone host fuel input b sh).
Proof.
  eapply rtc_l; [apply (step_call host input b)|]. apply run_reachable.
Qed.

Lemma ex_loaded_flags : modelLoaded (shared ex_loaded) = true.
Proof.
  unfold ex_loaded. rewrite run_alone_resume_n. cbn [shared].
  destruct (cache_hit_run ex_host (InImage ex_img) true ex_cached [1; 2; 3]%Z
              (idb ex_cached) {| session_model := [1; 2; 3]%Z |})
    as (sh' & t' & Hrun & _ & Hloaded & _).
  - apply ex_host_pipeline_ok.
  - apply ex_img_nonempty.
  - reflexivity.
  - reflexivity.
  - by vm_compute.
  - reflexivity.
  - reflexivity.
  - cbn [start_steps Nat.add] in Hrun. by rewrite Hrun.
Qed.

Lemma loaded_instance_frozen_witness :
  shared (resume_task ex_host 1 (call (InString "data:image/png;base64,AAAA") false ex_loaded))
  = shared ex_loaded.
Proof.
  apply (loaded_instance_frozen ex_host None None (idb ex_cached)).
  - apply (run_alone_reachable ex_host 7 (InImage ex_img) true ex_cached).
  - apply ex_loaded_flags.
  - eapply rtc_l; [apply step_call|]. eapply rtc_l; [apply step_resume|]. apply rtc_refl.
Defined.

(** ** The session check of line 68 *)

Section SessionKept.

Variable host : Host.

Lemma download_never_not_loaded (response : option Response) (key : string)
    (now : Z) (idb : IndexedDB) :
  outcome (download_continue response key now idb) <> Throw ModelNotLoaded.
Proof.
  rewrite download_continue_outcome. by repeat case_match.
Qed.

Lemma after_model_kept (sh : Shared) (img : Image) (t : Task) :
  is_Some (session sh) -> task_kept sh (after_model host sh img t).
Proof.
  intros [s Hs]. unfold after_model, task_kept. rewrite Hs. cbn [pc goto].
  unfold preprocess_call. by destruct (context2d host).
Qed.

Lemma check_model_kept (sh : Shared) (img : Image) (t : Task) :
  (modelLoaded sh = true -> is_Some (session sh)) ->
  task_kept (check_model host sh img t).1 (check_model host sh img t).2.
Proof.
  intros Hsh. unfold check_model.
  destruct (modelLoaded sh) eqn:Hl, (modelLoading sh) eqn:Hg; cbn [negb andb fst snd].
  - by apply after_model_kept, Hsh.
  - by apply after_model_kept, Hsh.
  - unfold task_kept, flags. cbn [pc goto]. rewrite Hl, Hg. done.
  - done.
Qed.

(** One segment keeps what the check relies on, for the call that runs
    and, since the session is never reset and the flags never go back to
    (false, false), for every other call. *)
Lemma resume_kept (sh : Shared) (t : Task) :
  (modelLoaded sh = true -> is_Some (session sh)) -> task_kept sh t ->
  let sh' := (resume host sh t).1 in
  (modelLoaded sh' = true -> is_Some (session sh')) /\
  task_kept sh' (resume host sh t).2 /\
  (is_Some (session sh) -> is_Some (session sh')) /\
  (flags sh <> (false, false) -> flags sh' <> (false, false)).
Proof.
  intros Hsh Hkept. cbv zeta.
  assert (forall img t0,
    (modelLoaded (check_model host sh img t0).1 = true ->
     is_Some (session (check_model host sh img t0).1)) /\
    (is_Some (session sh) -> is_Some (session (check_model host sh img t0).1)) /\
    (flags sh <> (false, false) -> flags (check_model host sh img t0).1 <> (false, false)))
    as Hcheck.
  { intros img t0. unfold check_model, flags.
    destruct (modelLoaded sh) eqn:Hl, (modelLoading sh) eqn:Hg; cbn [negb andb fst];
      rewrite ?Hl, ?Hg; done. }
  destruct t as [b c tr]. unfold task_kept in Hkept. cbn [pc] in Hkept.
  unfold resume. cbn [pc].
  destruct c as [input|base64|img|img cached|img|img buf|img|img|img r|img s0 tensor|canvas|r].
  - destruct input as [base64|img|v].
    + done.
    + destruct (Hcheck img (emit 0 "Starting background removal..."
                              {| return_base64 := b; pc := Called (InImage img); trace := tr |}))
        as (H1 & H2 & H3).
      split; [done|]. split; [by apply check_model_kept|done].
    + done.
  - destruct (decodeBase64 host base64) as [img|]; [|done].
    destruct (Hcheck img {| return_base64 := b; pc := AwaitDecode base64; trace := tr |})
      as (H1 & H2 & H3).
    split; [done|]. split; [by apply check_model_kept|done].
  - unfold _getCachedModel.
    destruct (idb sh) as [| | |models]; simpl; repeat case_match; simpl; done.
  - destruct (create_session host cached) as [s|]; simpl; [|done].
    unfold task_kept, flags. simpl. split_and!; eauto.
  - pose proof (download_never_not_loaded (fetch host (modelUrl sh)) (modelCacheKey sh)
                  (now host) (idb sh)) as Hd.
    destruct (outcome _) as [buf|e] eqn:Hout; simpl; unfold task_kept; simpl.
    + done.
    + split_and!; try done. intros [= ->]. by apply Hd.
  - destruct (create_session host buf) as [s|]; simpl; [|done].
    unfold task_kept, flags. simpl. split_and!; eauto.
  - cbn [fst snd]. split_and!; try done.
    by apply after_model_kept.
  - destruct (modelLoading sh) eqn:Hg; cbn [fst snd]; [done|].
    split_and!; try done. apply after_model_kept, Hsh.
    unfold flags in Hkept. rewrite Hg in Hkept. by destruct (modelLoaded sh).
  - destruct r as [tensor|e].
    2:{ simpl. unfold task_kept. simpl. split_and!; try done. intros [= ->]. by apply Hkept. }
    destruct (session sh) eqn:Hs; simpl; unfold task_kept; simpl; rewrite ?Hs;
      split_and!; done.
  - destruct (session_run host s0 tensor) as [mask|]; [|done].
    unfold applyMask_call.
    repeat case_match; simpl; unfold task_kept; simpl; split_and!; try done;
      congruence.
  - destruct (canvasToImage host canvas); simpl; unfold task_kept; simpl; split_and!; done.
  - done.
Qed.

Lemma task_kept_other (sh sh' : Shared) (t : Task) :
  (is_Some (session sh) -> is_Some (session sh')) ->
  (flags sh <> (false, false) -> flags sh' <> (false, false)) ->
  task_kept sh t -> task_kept sh' t.
Proof. unfold task_kept. destruct (pc t); eauto. Qed.

Lemma session_kept_step (s s' : State) : session_kept s -> step host s s' -> session_kept s'.
Proof.
  intros [Hsh Htasks] Hstep. destruct Hstep as [input b s|i s].
  - split; [done|]. intros j tj Hj. simpl in Hj.
    apply lookup_app_Some in Hj as [Hj|[_ Hj]]; [by eapply Htasks|].
    by apply list_lookup_singleton_Some in Hj as [_ <-].
  - destruct (tasks s !! i) as [t|] eqn:Ht; [|by rewrite resume_task_none].
    destruct (resume_kept (shared s) t Hsh (Htasks i t Ht)) as (H1 & H2 & H3 & H4).
    split.
    + by rewrite (resume_task_shared host i s t Ht).
    + intros j tj Hj. rewrite (resume_task_lookup host i j s t Ht) in Hj.
      rewrite (resume_task_shared host i s t Ht).
      case_decide; [by injection Hj as <-|].
      eapply task_kept_other; [exact H3|exact H4|by eapply Htasks].
Qed.

Lemma session_kept_reachable (s s' : State) :
  session_kept s -> reachable_from host s s' -> session_kept s'.
Proof.
  intros Hs Hreach. induction Hreach as [|s1 s2 s3 Hstep _ IH]; [done|].
  apply IH. by eapply session_kept_step.
Qed.

(** X12. The error 'Model not loaded' of line 68 is never thrown: in no
    state reachable from a new instance, on whatever host and however the
    calls are interleaved, is a call rejected with it. When the test is
    reached the session is set, because the flag [modelLoaded] is only set
    after a load that assigned it, and a load that failed leaves the other
    calls waiting instead. *)
Theorem model_not_loaded_never_thrown (url key : option string) (idb0 : IndexedDB)
    (s : State) (i : nat) (t : Task) :
  reachable_from host (initial (constructor url key idb0)) s ->
  tasks s !! i = Some t ->
  pc t <> Settled (Throw ModelNotLoaded).
Proof.
  intros Hreach Ht.
  assert (session_kept s) as [_ Htasks].
  { eapply session_kept_reachable; [|exact Hreach]. by split. }
  specialize (Htasks i t Ht). unfold task_kept in Htasks.
  destruct (pc t); try done. congruence.
Qed.

End SessionKept.

Lemma model_not_loaded_never_thrown_witness :
  exists t, tasks (resume_task ex_host_offline 0 ex_loading) !! 0 = Some t /\
            pc t <> Settled (Throw ModelNotLoaded).
Proof.
  eexists. split; [vm_compute; reflexivity|].
  apply (model_not_loaded_never_thrown ex_host_offline None None NotCreated
           (resume_task ex_host_offline 0 ex_loading) 0).
  - eapply rtc_r; [apply ex_offline_reachable|apply step_resume].
  - vm_compute. reflexivity.
Defined.

(** ** The first and the last progress event of a call *)

Lemma incomplete_app (evs evs' : list ProgressEvent) :
  incomplete (evs ++ evs') = incomplete evs && incomplete evs'.
Proof. apply forallb_app. Qed.

Lemma read_loop_incomplete (totalSize : Z) (s : Stream) (chunks : list (list Z))
    (size : Z) (last : number) (evs : list ProgressEvent) :
  incomplete evs = true ->
  incomplete (read_loop totalSize s chunks size last evs).2 = true.
Proof.
  revert chunks size last evs.
  induction s as [|value rest IH|]; intros chunks size last evs Hevs; cbn [read_loop]; [done| |done].
  destruct (totalSize >? 0)%Z; [|by apply IH].
  destruct (number_neq _ _); [|by apply IH].
  apply IH. by rewrite incomplete_app, Hevs.
Qed.

Lemma download_incomplete (response : option Response) (key : string) (now : Z)
    (idb : IndexedDB) :
  incomplete (emitted (download_continue response key now idb)) = true.
Proof.
  unfold download_continue. destruct response as [r|]; [|done].
  destruct (negb (ok r)); [done|]. destruct (body r) as [stream|]; [|done].
  pose proof (read_loop_incomplete (totalSize_of r) stream [] 0 (of_Z 10) [] eq_refl) as Hloop.
  destruct (read_loop _ _ _ _ _ _) as [[[chunks size]|e] evs]; [|done].
  rewrite cacheModel_ok. cbn [emitted snd] in *.
  by rewrite incomplete_app, Hloop.
Qed.

Lemma incomplete_not_in (evs : list ProgressEvent) :
  incomplete evs = true -> complete_event ∉ evs.
Proof.
  intros Hevs Hin. unfold incomplete in Hevs. rewrite forallb_forall in Hevs.
  apply list_elem_of_In in Hin. by apply Hevs in Hin.
Qed.

Section Bracket.

Variable host : Host.

(** The events so far begin with the start event and hold no event 100;
    [evs] are the events of the next segment. *)
Ltac events_so_far Hinc :=
  eexists; split;
    [simpl; reflexivity
    |rewrite ?incomplete_app, ?download_incomplete, ?Hinc; reflexivity].

Lemma after_model_bracketed (sh : Shared) (img : Image) (t : Task) (evs : list ProgressEvent) :
  trace t = start_event :: evs -> incomplete evs = true ->
  bracketed (after_model host sh img t).
Proof.
  destruct t as [b c tr]. cbn [trace]. intros -> Hinc.
  unfold after_model, bracketed. destruct (session sh); cbn [pc goto settle]; events_so_far Hinc.
Qed.

Lemma check_model_bracketed (sh : Shared) (img : Image) (t : Task) (evs : list ProgressEvent) :
  trace t = start_event :: evs -> incomplete evs = true ->
  bracketed (check_model host sh img t).2.
Proof.
  destruct t as [b c tr]. cbn [trace]. intros -> Hinc. unfold check_model.
  destruct (negb (modelLoaded sh) && negb (modelLoading sh)); cbn [snd].
  { unfold bracketed. cbn [pc goto]. events_so_far Hinc. }
  destruct (negb (modelLoaded sh) && modelLoading sh); cbn [snd].
  { unfold bracketed. cbn [pc goto]. events_so_far Hinc. }
  eapply after_model_bracketed; [simpl; reflexivity|].
  by rewrite incomplete_app, Hinc.
Qed.

Lemma resume_bracketed (sh : Shared) (t : Task) :
  bracketed t -> bracketed (resume host sh t).2.
Proof.
  destruct t as [b c tr]. unfold bracketed at 1. cbn [pc trace]. intros Hbr.
  unfold resume. cbn [pc].
  destruct c as [input|base64|img|img cached|img|img buf|img|img|img r|img s0 tensor|canvas|r].
  - subst tr. destruct input as [base64|img|v].
    + unfold bracketed. cbn [snd pc goto]. by events_so_far I.
    + eapply check_model_bracketed; [simpl; reflexivity|done].
    + unfold bracketed. cbn [snd pc goto settle]. by events_so_far I.
  - destruct Hbr as (evs & -> & Hinc).
    destruct (decodeBase64 host base64) as [img|].
    + by eapply check_model_bracketed.
    + unfold bracketed. cbn [snd pc goto settle]. events_so_far Hinc.
  - destruct Hbr as (evs & -> & Hinc).
    destruct (_getCachedModel _ _) as [[[cached|]|e] db];
      destruct (ort_loaded host); unfold bracketed; cbn [snd pc goto settle];
      events_so_far Hinc.
  - destruct Hbr as (evs & -> & Hinc).
    destruct (create_session host cached); unfold bracketed; cbn [snd pc goto settle];
      events_so_far Hinc.
  - destruct Hbr as (evs & -> & Hinc).
    destruct (outcome _); unfold bracketed; cbn [snd pc goto settle];
      events_so_far Hinc.
  - destruct Hbr as (evs & -> & Hinc).
    destruct (create_session host buf); unfold bracketed; cbn [snd pc goto settle];
      events_so_far Hinc.
  - destruct Hbr as (evs & -> & Hinc). cbn [snd].
    by eapply after_model_bracketed.
  - destruct Hbr as (evs & -> & Hinc).
    destruct (modelLoading sh); cbn [snd].
    + unfold bracketed. cbn [pc]. events_so_far Hinc.
    + by eapply after_model_bracketed.
  - destruct Hbr as (evs & -> & Hinc).
    destruct r as [tensor|e]; [destruct (session sh)|]; unfold bracketed;
      cbn [snd pc goto settle]; events_so_far Hinc.
  - destruct Hbr as (evs & -> & Hinc).
    destruct (session_run host s0 tensor) as [mask|].
    2:{ unfold bracketed. cbn [snd pc goto settle]. events_so_far Hinc. }
    destruct (applyMask_call host img mask) as [canvas|e].
    2:{ unfold bracketed. cbn [snd pc goto settle]. events_so_far Hinc. }
    destruct b; unfold bracketed; cbn [snd pc goto settle emit emit_all return_base64];
      events_so_far Hinc.
  - destruct Hbr as (evs & -> & Hinc).
    destruct (canvasToImage host canvas); unfold bracketed; cbn [snd pc goto settle];
      events_so_far Hinc.
  - cbn [snd]. unfold bracketed. cbn [pc trace]. exact Hbr.
Qed.

Lemma bracketed_step (s s' : State) :
  (forall i t, tasks s !! i = Some t -> bracketed t) -> step host s s' ->
  forall i t, tasks s' !! i = Some t -> bracketed t.
Proof.
  intros Hall Hstep. destruct Hstep as [input b s|i s]; intros j tj Hj.
  - simpl in Hj. apply lookup_app_Some in Hj as [Hj|[_ Hj]]; [by eapply Hall|].
    by apply list_lookup_singleton_Some in Hj as [_ <-].
  - destruct (tasks s !! i) as [t|] eqn:Ht; [|rewrite resume_task_none in Hj; eauto].
    rewrite (resume_task_lookup host i j s t Ht) in Hj.
    case_decide; [|by eapply Hall]. injection Hj as <-. by eapply resume_bracketed, Hall.
Qed.

Lemma bracketed_reachable (s s' : State) :
  (forall i t, tasks s !! i = Some t -> bracketed t) -> reachable_from host s s' ->
  forall i t, tasks s' !! i = Some t -> bracketed t.
Proof.
  intros Hall Hreach. induction Hreach as [|s1 s2 s3 Hstep _ IH]; [done|].
  apply IH. by eapply bracketed_step.
Qed.

(** X13. The progress events of every call are bracketed: in every state
    reachable from an instance without calls, whatever its state, the host
    and the interleaving, a call that has started has emitted the event 0
    'Starting background removal...' first; it has emitted the event 100
    'Complete!' exactly when it has resolved, and then as its last event
    and only once. A call that rejects never reports completion. *)
Theorem progress_bracketed (sh0 : Shared) (s : State) (i : nat) (t : Task) :
  reachable_from host (initial sh0) s ->
  tasks s !! i = Some t ->
  bracketed t /\ (succeeded t <-> complete_event ∈ trace t).
Proof.
  intros Hreach Ht.
  assert (bracketed t) as Hbr.
  { eapply (bracketed_reachable (initial sh0) s); [|exact Hreach|exact Ht]. by intros [|?] ?. }
  split; [done|]. unfold bracketed, succeeded in *.
  assert (start_event <> complete_event) as Hne by (by intros [=]).
  destruct (pc t) as [| | | | | | | | | | |[out|e]].
  all: try (destruct Hbr as (evs & -> & Hinc); split; [by intros [? ?]|];
            intros [?|Hin]%elem_of_cons; [done|by apply incomplete_not_in in Hin]).
  - rewrite Hbr. split; [by intros [? ?]|by intros ?%elem_of_nil].
  - destruct Hbr as (evs & -> & Hinc). split; [|by eexists]. intros _.
    rewrite elem_of_cons, elem_of_app, list_elem_of_singleton. auto.
Qed.

End Bracket.

Lemma progress_bracketed_witness :
  exists t, tasks (resume_task ex_host_offline 0 ex_loading) !! 0 = Some t /\
            bracketed t /\ (succeeded t <-> complete_event ∈ trace t).
Proof.
  eexists. split; [vm_compute; reflexivity|].
  apply (progress_bracketed ex_host_offline ex_fresh
           (resume_task ex_host_offline 0 ex_loading) 0).
  - eapply rtc_r; [apply ex_offline_reachable|apply step_resume].
  - vm_compute. reflexivity.
Defined.

(** ** Single calls, from the first segment to the result *)

(** X14. A base64 string that cannot be decoded rejects the call with the
    error of the image element, after the events 0 and 2 and before the
    flags of the instance are looked at: the shared state is untouched, so
    no load is started even on a new instance. *)
Theorem decode_failure_rejected (host : Host) (sh : Shared) (base64 : string)
    (b : bool) (fuel : nat) :
  decodeBase64 host base64 = None ->
  let s := run_alone host (2 + fuel) (InString base64) b sh in
  shared s = sh /\
  tasks s = [ {| return_base64 := b;
                 pc := Settled (Throw (HostError ImageDecode));
                 trace := [progress 0 "Starting background removal...";
                           progress 2 "Decoding base64 image..."] |} ].
Proof.
  intros Hdec. cbv zeta. rewrite run_alone_resume_n.
  erewrite resume_n_settled_more; [done| |by eexists].
  unfold new_task. run_segment idtac. run_segment ltac:(rewrite Hdec). reflexivity.
Qed.

Lemma decode_failure_rejected_witness :
  shared (run_alone ex_host_undecodable 2 (InString "data:,") true ex_fresh) = ex_fresh.
Proof.
  destruct (decode_failure_rejected ex_host_undecodable ex_fresh "data:," true 0) as [H _];
    [reflexivity|exact H].
Defined.

(** X15. Without the inference engine the first call of an instance is
    rejected after the cache has been looked up and before anything is
    fetched: with 'onnxruntime-web (ort) is not loaded' when the cache holds
    no model, with the error of the access to the undefined engine when it
    holds one. The flag [modelLoading] is left set, no session is assigned
    and no download is started. *)
Theorem engine_missing_rejects (host : Host) (sh : Shared) (input : Input) (b : bool)
    (cached : option (list Z)) (fuel : nat) :
  ort_loaded host = false -> valid_input host input ->
  modelLoaded sh = false -> modelLoading sh = false ->
  (_getCachedModel (modelCacheKey sh) (idb sh)).1 = Ok cached ->
  exists sh' t',
    resume_n host (start_steps input + 1 + fuel) sh (new_task input b) = (sh', t') /\
    pc t' = Settled (Throw (match cached with
                            | Some _ => HostError OrtUndefined
                            | None => EngineUnavailableError
                            end)) /\
    percents (trace t')
    = of_Z <$> (start_percents input ++ [5; match cached with Some _ => 15 | None => 10 end]%Z) /\
    flags sh' = (false, true) /\ session sh' = session sh /\ fetches sh' = fetches sh.
Proof.
  intros Hort Hvalid Hloaded Hloading Hget.
  destruct (_getCachedModel (modelCacheKey sh) (idb sh)) as [r db] eqn:Hgot.
  cbn [fst] in Hget. subst r.
  assert (exists sh' t',
    resume_n host (start_steps input + 1) sh (new_task input b) = (sh', t') /\
    pc t' = Settled (Throw (match cached with
                            | Some _ => HostError OrtUndefined
                            | None => EngineUnavailableError
                            end)) /\
    percents (trace t')
    = of_Z <$> (start_percents input ++ [5; match cached with Some _ => 15 | None => 10 end]%Z) /\
    flags sh' = (false, true) /\ session sh' = session sh /\ fetches sh' = fetches sh)
    as (sh' & t' & Hrun & Hpc & Hrest).
  { destruct (start_run host input b sh 1 Hvalid) as (img & t & Himg & _ & Htr & ->).
    unfold check_model. rewrite Hloaded, Hloading. cbn [negb andb fst snd].
    destruct cached as [cachedModel|].
    - run_segment ltac:(rewrite Hgot; simpl; rewrite Hort).
      do 2 eexists. split; [reflexivity|]. split; [reflexivity|].
      split; [rewrite fmap_app; trace_eq|].
      unfold flags. simpl. split; [done|]. split; [done|].
      unfold fetches. simpl. by rewrite filter_app, length_app, idb_io_no_fetch, Nat.add_0_r.
    - run_segment ltac:(rewrite Hgot; simpl; rewrite Hort).
      do 2 eexists. split; [reflexivity|]. split; [reflexivity|].
      split; [rewrite fmap_app; trace_eq|].
      unfold flags. simpl. split; [done|]. split; [done|].
      unfold fetches. simpl. by rewrite filter_app, length_app, idb_io_no_fetch, Nat.add_0_r. }
  exists sh', t'. split; [|by split].
  apply resume_n_settled_more; [done|by eexists].
Qed.

Lemma engine_missing_rejects_witness :
  exists sh' t',
    resume_n ex_host_no_engine 2 ex_fresh (new_task (InImage ex_img) false) = (sh', t') /\
    pc t' = Settled (Throw EngineUnavailableError).
Proof.
  destruct (engine_missing_rejects ex_host_no_engine ex_fresh (InImage ex_img) false None 0)
    as (sh' & t' & Hrun & Hpc & _); [reflexivity|apply ex_img_nonempty|reflexivity..|].
  exists sh', t'. split; [exact Hrun|exact Hpc].
Defined.

(** X16. The result of a call on a loaded instance is the composition of
    the four stages: the tensor of the image drawn at 1024 x 1024 is run
    through the session, the mask is applied to the image at its own size,
    and the canvas is encoded - as a data URL at once when [return] is
    'base64', through an image element otherwise, whose failure rejects the
    call. The instance is left as it was. *)
Theorem loaded_call_result (host : Host) (sh : Shared) (s : Session) (img : Image)
    (mask : list number) (b : bool) :
  modelLoaded sh = true -> session sh = Some s ->
  context2d host = true -> nonempty img ->
  session_run host s (_preprocessImage (getImageData_1024 host img)) = Some mask ->
  let canvas := _applyMask {| width := img_width img; height := img_height img;
                              data := getImageData_native host img |} mask in
  exists t',
    resume_n host 4 sh (new_task (InImage img) b) = (sh, t') /\
    pc t' = Settled (if b then Ok (OutBase64 (toDataURL host canvas))
                     else match canvasToImage host canvas with
                          | Some result => Ok (OutImage result)
                          | None => Throw (HostError ImageEncode)
                          end).
Proof.
  intros Hloaded Hs Hctx [Hw Hh] Hmask. cbv zeta.
  assert (applyMask_call host img mask
          = Ok (_applyMask {| width := img_width img; height := img_height img;
                              data := getImageData_native host img |} mask)) as Hmaskcall.
  { unfold applyMask_call. rewrite Hctx.
    destruct (img_width img =? 0) eqn:Ew; [apply Nat.eqb_eq in Ew; lia|].
    destruct (img_height img =? 0) eqn:Eh; [apply Nat.eqb_eq in Eh; lia|]. done. }
  unfold new_task. destruct b.
  - eexists. split; cycle 1; [|
      run_segment ltac:(unfold check_model, after_model, preprocess_call;
                        rewrite Hloaded, Hs, Hctx; simpl);
      run_segment ltac:(rewrite Hs);
      run_segment ltac:(rewrite Hmask, Hmaskcall);
      erewrite resume_n_settled; reflexivity].
    reflexivity.
  - destruct (canvasToImage host _) as [result|] eqn:Henc.
    + eexists. split; cycle 1; [|
        run_segment ltac:(unfold check_model, after_model, preprocess_call;
                          rewrite Hloaded, Hs, Hctx; simpl);
        run_segment ltac:(rewrite Hs);
        run_segment ltac:(rewrite Hmask, Hmaskcall);
        run_segment ltac:(rewrite Henc); reflexivity].
      reflexivity.
    + eexists. split; cycle 1; [|
        run_segment ltac:(unfold check_model, after_model, preprocess_call;
                          rewrite Hloaded, Hs, Hctx; simpl);
        run_segment ltac:(rewrite Hs);
        run_segment ltac:(rewrite Hmask, Hmaskcall);
        run_segment ltac:(rewrite Henc); reflexivity].
      reflexivity.
Qed.

Lemma loaded_call_result_witness :
  exists t',
    resume_n ex_host 4
      {| modelUrl := "u"; modelCacheKey := "k";
         session := Some {| session_model := [1]%Z |};
         modelLoaded := true; modelLoading := false; idb := NoIndexedDB; io := [] |}
      (new_task (InImage ex_img) true)
    = ({| modelUrl := "u"; modelCacheKey := "k";
          session := Some {| session_model := [1]%Z |};
          modelLoaded := true; modelLoading := false; idb := NoIndexedDB; io := [] |}, t') /\
    pc t' = Settled (Ok (OutBase64 "data:image/png;base64,AAAA")).
Proof.
  apply (loaded_call_result ex_host _ {| session_model := [1]%Z |} ex_img ex_mask4 true);
    first [reflexivity | apply ex_img_nonempty].
Defined.

(** X17. A call that arrives while another call is loading the model
    emits 0, 2 for a string, and 10, then waits: resumed while the flag
    [modelLoading] is set it stays where it is and emits nothing. Once the
    flag is reset and the session assigned it goes on with 15, 35, 70, 90
    and 100 and resolves; its percentages are strictly increasing. *)
Theorem waiting_call_progress (host : Host) (input : Input) (b : bool)
    (sh sh' : Shared) (s : Session) :
  pipeline_ok host -> valid_input host input ->
  modelLoaded sh = false -> modelLoading sh = true ->
  modelLoading sh' = false -> session sh' = Some s ->
  exists img t1 t',
    resume_n host (start_steps input) sh (new_task input b) = (sh, t1) /\
    pc t1 = Polling img /\
    resume host sh t1 = (sh, t1) /\
    resume_n host 4 sh' t1 = (sh', t') /\ succeeded t' /\
    percents (trace t') = of_Z <$> (start_percents input ++ [10; 15; 35; 70; 90; 100]%Z) /\
    strictly_increasing (percents (trace t')) = true.
Proof.
  intros Hhost Hvalid Hloaded Hloading Hloading' Hs.
  destruct (start_run host input b sh 0 Hvalid) as (img & t & Himg & _ & Htr & Hstart).
  rewrite Nat.add_0_r in Hstart.
  unfold check_model in Hstart. rewrite Hloaded, Hloading in Hstart.
  cbn [negb andb fst snd resume_n Nat.iter] in Hstart.
  destruct (waited_run host sh'
              (goto (Polling img) (emit 10 "Model is loading, please wait." t)) img s)
    as (t' & Hrun & Hok & Htr'); [done..|].
  exists img, (goto (Polling img) (emit 10 "Model is loading, please wait." t)), t'.
  split; [exact Hstart|]. split; [reflexivity|].
  split; [unfold resume; cbn [pc goto]; by rewrite Hloading|].
  split; [exact Hrun|]. split; [exact Hok|].
  assert (percents (trace t')
          = of_Z <$> (start_percents input ++ [10; 15; 35; 70; 90; 100]%Z)) as Hall.
  { rewrite Htr', fmap_app. trace_eq. }
  split; [exact Hall|]. rewrite Hall. destruct input; by vm_compute.
Qed.

Lemma waiting_call_progress_witness :
  exists img t1 t',
    resume_n ex_host 1 ex_shared_loading (new_task (InImage ex_img) false)
    = (ex_shared_loading, t1) /\
    pc t1 = Polling img /\
    resume ex_host ex_shared_loading t1 = (ex_shared_loading, t1) /\
    resume_n ex_host 4 ex_shared_ready t1 = (ex_shared_ready, t') /\ succeeded t' /\
    percents (trace t') = of_Z <$> [0; 10; 15; 35; 70; 90; 100]%Z /\
    strictly_increasing (percents (trace t')) = true.
Proof.
  apply (waiting_call_progress ex_host (InImage ex_img) false ex_shared_loading
           ex_shared_ready {| session_model := [1; 2; 3]%Z |}).
  - apply ex_host_pipeline_ok.
  - apply ex_img_nonempty.
  - reflexivity.
  - reflexivity.
  - reflexivity.
  - reflexivity.
Defined.

(** ** The cache from one instance to the next *)

(** The instance after a first call that downloaded the model. *)
Lemma download_run_state (host : Host) (input : Input) (b : bool) (sh : Shared)
    (db : IndexedDB) :
  healthy host (modelUrl sh) -> valid_input host input ->
  modelLoaded sh = false -> modelLoading sh = false ->
  _getCachedModel (modelCacheKey sh) (idb sh) = (Ok None, db) ->
  exists modelBuffer s sh' t',
    create_session host modelBuffer = Some s /\
    resume_n host (start_steps input + 7) sh (new_task input b) = (sh', t') /\
    succeeded t' /\ session sh' = Some s /\
    idb sh' = (_cacheModel (modelCacheKey sh) (now host) modelBuffer db).2 /\
    fetches sh' = fetches sh + 1.
Proof.
  intros [Hhost Hort Hcreate (r & stream & Hfetch & Hrok & Hbody & Hdone)]
    Hvalid Hloaded Hloading Hget.
  destruct (start_run host input b sh 7 Hvalid) as (img & t & Himg & _ & Htr & ->).
  unfold check_model. rewrite Hloaded, Hloading. cbn [negb andb fst snd].
  run_segment ltac:(rewrite Hget; simpl; rewrite Hort).
  pose proof (download_continue_outcome (fetch host (modelUrl sh)) (modelCacheKey sh)
                (now host) db) as Hout.
  pose proof (download_continue_state (fetch host (modelUrl sh)) (modelCacheKey sh)
                (now host) db) as Hstate.
  cbv zeta in Hstate. rewrite Hout in Hstate.
  rewrite Hfetch, Hrok, Hbody, Hdone in Hout, Hstate. cbn [negb] in Hout, Hstate.
  destruct Hstate as (Hidb & Hacc & _).
  destruct (Hcreate (concat (stream_chunks stream))) as [s Hs].
  run_segment ltac:(rewrite Hfetch, Hout).
  run_segment ltac:(rewrite Hs).
  run_segment idtac.
  use_tail img s. exists (concat (stream_chunks stream)), s. do 2 eexists.
  split; [exact Hs|]. split; [exact Hrun|]. split; [done|]. split; [reflexivity|].
  split; [simpl; by rewrite Hidb|].
  unfold fetches. simpl. rewrite Hacc, !filter_app, !length_app, !idb_io_no_fetch. simpl. lia.
Qed.

(** The instance after a first call that found the model in the cache. *)
Lemma cache_hit_run_state (host : Host) (input : Input) (b : bool) (sh : Shared)
    (cachedModel : list Z) (db : IndexedDB) (s : Session) :
  pipeline_ok host -> valid_input host input ->
  modelLoaded sh = false -> modelLoading sh = false ->
  _getCachedModel (modelCacheKey sh) (idb sh) = (Ok (Some cachedModel), db) ->
  ort_loaded host = true -> create_session host cachedModel = Some s ->
  exists sh' t',
    resume_n host (start_steps input + 6) sh (new_task input b) = (sh', t') /\
    succeeded t' /\ session sh' = Some s /\ idb sh' = db /\ fetches sh' = fetches sh.
Proof.
  intros Hhost Hvalid Hloaded Hloading Hget Hort Hcreate.
  destruct (start_run host input b sh 6 Hvalid) as (img & t & Himg & _ & Htr & ->).
  unfold check_model. rewrite Hloaded, Hloading. cbn [negb andb fst snd].
  run_segment ltac:(rewrite Hget; simpl; rewrite Hort).
  run_segment ltac:(rewrite Hcreate).
  run_segment idtac.
  use_tail img s. do 2 eexists. split; [exact Hrun|]. split; [done|].
  split; [reflexivity|]. split; [reflexivity|].
  unfold fetches. simpl. by rewrite filter_app, length_app, idb_io_no_fetch, Nat.add_0_r.
Qed.

(** X18. The cache works from one instance to the next. When the storage
    can be opened and holds no model under the key, the first call of an
    instance downloads the model with one fetch; the first call of a second
    instance made with the same options on the storage the first one left
    finds the model in the cache: it fetches nothing, creates its session
    from the same bytes and leaves the storage as it found it. *)
Theorem second_instance_loads_from_cache (host : Host) (url key : option string)
    (idb0 : IndexedDB) (input1 input2 : Input) (b1 b2 : bool) :
  healthy host (modelUrl (constructor url key idb0)) ->
  valid_input host input1 -> valid_input host input2 ->
  available idb0 = true -> cache_miss (constructor url key idb0) ->
  exists sh1 t1 sh2 t2,
    resume_n host (start_steps input1 + 7) (constructor url key idb0) (new_task input1 b1)
    = (sh1, t1) /\ succeeded t1 /\ fetches sh1 = 1 /\
    resume_n host (start_steps input2 + 6) (constructor url key (idb sh1))
      (new_task input2 b2)
    = (sh2, t2) /\ succeeded t2 /\ fetches sh2 = 0 /\
    session sh2 = session sh1 /\ idb sh2 = idb sh1.
Proof.
  intros Hhost Hvalid1 Hvalid2 Havail Hmiss. unfold cache_miss in Hmiss.
  destruct (_getCachedModel (modelCacheKey (constructor url key idb0))
              (idb (constructor url key idb0))) as [r db] eqn:Hget.
  cbn [fst] in Hmiss. subst r.
  destruct (download_run_state host input1 b1 (constructor url key idb0) db
              Hhost Hvalid1 eq_refl eq_refl Hget)
    as (buf & s & sh1 & t1 & Hcreate & Hrun1 & Hok1 & Hs1 & Hidb1 & Hf1).
  assert (_getCachedModel (modelCacheKey (constructor url key (idb sh1)))
            (idb (constructor url key (idb sh1))) = (Ok (Some buf), idb sh1)) as Hget2.
  { rewrite Hidb1. cbn [modelCacheKey idb constructor] in *.
    unfold _getCachedModel in *.
    destruct idb0 as [| | |models]; try discriminate; simpl in *.
    - injection Hget as <-. simpl. by rewrite lookup_insert_eq.
    - injection Hget as _ <-. simpl. by rewrite lookup_insert_eq. }
  destruct (cache_hit_run_state host input2 b2 (constructor url key (idb sh1)) buf
              (idb sh1) s (ok_pipeline _ _ Hhost) Hvalid2 eq_refl eq_refl Hget2
              (ok_ort _ _ Hhost) Hcreate)
    as (sh2 & t2 & Hrun2 & Hok2 & Hs2 & Hidb2 & Hf2).
  exists sh1, t1, sh2, t2. split_and!; try done. by rewrite Hs2, Hs1.
Qed.

Lemma second_instance_loads_from_cache_witness :
  exists sh1 t1 sh2 t2,
    resume_n ex_host 8 ex_fresh (new_task (InImage ex_img) false) = (sh1, t1) /\
    succeeded t1 /\ fetches sh1 = 1 /\
    resume_n ex_host 8 (constructor None None (idb sh1))
      (new_task (InString "data:image/png;base64,AAAA") true)
    = (sh2, t2) /\ succeeded t2 /\ fetches sh2 = 0 /\
    session sh2 = session sh1 /\ idb sh2 = idb sh1.
Proof.
  apply (second_instance_loads_from_cache ex_host None None NotCreated
           (InImage ex_img) (InString "data:image/png;base64,AAAA") false true).
  - apply ex_host_healthy.
  - apply ex_img_nonempty.
  - exists ex_img. split; [reflexivity|apply ex_img_nonempty].
  - reflexivity.
  - reflexivity.
Defined.



(** ** The load with and without progress events *)

Lemma download_plain_continue (fetch : string -> option Response) (url key : string)
    (now : Z) (idb : IndexedDB) :
  (forall r, fetch url = Some r -> ok r = true -> is_Some (body r)) ->
  let plain := _downloadAndCacheModel fetch url key now idb in
  let d := download_continue (fetch url) key now idb in
  outcome plain = outcome d /\ idb_after plain = idb_after d /\
  accesses plain = NetFetch url :: accesses d.
Proof.
  intros Hbody. cbv zeta. unfold _downloadAndCacheModel.
  pose proof (download_continue_outcome (fetch url) key now idb) as Hout.
  pose proof (download_continue_state (fetch url) key now idb) as Hstate.
  cbv zeta in Hstate. rewrite Hout in Hstate. rewrite Hout. clear Hout.
  destruct (fetch url) as [r|]; [|by destruct Hstate as [-> ->]].
  specialize (Hbody r eq_refl).
  unfold arrayBuffer. destruct (ok r); cbn [negb] in *.
  2:{ by destruct Hstate as [-> ->]. }
  destruct (Hbody eq_refl) as [stream Hstream]. rewrite Hstream in *.
  destruct (stream_completes stream).
  - destruct Hstate as (-> & -> & _). by rewrite cacheModel_ok.
  - by destruct Hstate as [-> ->].
Qed.

Lemma Shared_eq (a b : Shared) :
  modelUrl a = modelUrl b -> modelCacheKey a = modelCacheKey b ->
  session a = session b -> modelLoaded a = modelLoaded b ->
  modelLoading a = modelLoading b -> idb a = idb b -> io a = io b -> a = b.
Proof. destruct a, b. simpl. by intros -> -> -> -> -> -> ->. Qed.

(** X21. [_loadModel], the load without progress events, and the load
    that [removeBackground] runs leave the instance in the same state and
    end in the same way: when the response has a body (or is not ok, or
    [fetch] rejects), a first call that has set [modelLoading] reaches,
    in at most four segments, the state [_loadModel] returns - same
    session, storage and accesses - with the load returned if [_loadModel]
    returns and rejected with the same error if it throws. *)
Theorem load_variants (host : Host) (sh : Shared) (img : Image) (b : bool) :
  modelLoaded sh = false -> modelLoading sh = false ->
  (forall r, fetch host (modelUrl sh) = Some r -> ok r = true -> is_Some (body r)) ->
  let plain := _loadModel host (set_flags false true sh) in
  exists n t',
    n <= 4 /\
    resume_n host n sh (new_task (InImage img) b) = (plain.2, t') /\
    match plain.1 with
    | Ok _ => pc t' = AwaitLoad img
    | Throw e => pc t' = Settled (Throw e)
    end.
Proof.
  intros Hloaded Hloading Hbody. cbv zeta. unfold _loadModel.
  cbn [modelCacheKey idb log_io set_flags set_idb modelUrl].
  destruct (_getCachedModel (modelCacheKey sh) (idb sh)) as [r db] eqn:Hget.
  assert (resume host sh (new_task (InImage img) b)
          = check_model host sh img (emit 0 "Starting background removal..."
                                       (new_task (InImage img) b))) as Hfirst by reflexivity.
  unfold check_model in Hfirst. rewrite Hloaded, Hloading in Hfirst.
  cbn [negb andb] in Hfirst.
  destruct r as [[cached|]|e].
  - destruct (ort_loaded host) eqn:Hort.
    + destruct (create_session host cached) as [s|] eqn:Hs.
      * exists 3. eexists. split; [lia|].
        split; cycle 1; [|
          erewrite resume_n_step; [|exact Hfirst];
          run_segment ltac:(rewrite Hget; simpl; rewrite Hort);
          run_segment ltac:(rewrite Hs);
          reflexivity].
        reflexivity.
      * exists 3. eexists. split; [lia|].
        split; cycle 1; [|
          erewrite resume_n_step; [|exact Hfirst];
          run_segment ltac:(rewrite Hget; simpl; rewrite Hort);
          run_segment ltac:(rewrite Hs);
          reflexivity].
        reflexivity.
    + exists 2. eexists. split; [lia|].
        split; cycle 1; [|
          erewrite resume_n_step; [|exact Hfirst];
          run_segment ltac:(rewrite Hget; simpl; rewrite Hort);
          reflexivity].
        reflexivity.
  - destruct (ort_loaded host) eqn:Hort.
    2:{ exists 2. eexists. split; [lia|].
        split; cycle 1; [|
          erewrite resume_n_step; [|exact Hfirst];
          run_segment ltac:(rewrite Hget; simpl; rewrite Hort);
          reflexivity].
        reflexivity. }
    destruct (download_plain_continue (fetch host) (modelUrl sh) (modelCacheKey sh)
                (now host) db Hbody) as (Hout & Hidb & Hacc).
    rewrite Hout, Hidb, Hacc.
    destruct (outcome (download_continue _ _ _ _)) as [buf|e] eqn:Hd.
    + destruct (create_session host buf) as [s|] eqn:Hs.
      * exists 4. eexists. split; [lia|].
        split; cycle 1; [|
          erewrite resume_n_step; [|exact Hfirst];
          run_segment ltac:(rewrite Hget; simpl; rewrite Hort);
          run_segment ltac:(rewrite Hd);
          run_segment ltac:(rewrite Hs);
          cbn [resume_n Nat.iter]; f_equal; apply Shared_eq; try reflexivity;
          simpl; by rewrite <- !app_assoc].
        reflexivity.
      * exists 4. eexists. split; [lia|].
        split; cycle 1; [|
          erewrite resume_n_step; [|exact Hfirst];
          run_segment ltac:(rewrite Hget; simpl; rewrite Hort);
          run_segment ltac:(rewrite Hd);
          run_segment ltac:(rewrite Hs);
          cbn [resume_n Nat.iter]; f_equal; apply Shared_eq; try reflexivity;
          simpl; by rewrite <- !app_assoc].
        reflexivity.
    + exists 3. eexists. split; [lia|].
        split; cycle 1; [|
          erewrite resume_n_step; [|exact Hfirst];
          run_segment ltac:(rewrite Hget; simpl; rewrite Hort);
          run_segment ltac:(rewrite Hd);
          cbn [resume_n Nat.iter]; f_equal; apply Shared_eq; try reflexivity;
          simpl; by rewrite <- !app_assoc].
        reflexivity.
  - exists 2. eexists. split; [lia|].
        split; cycle 1; [|
          erewrite resume_n_step; [|exact Hfirst];
          run_segment ltac:(rewrite Hget);
          reflexivity].
        reflexivity.
Qed.

Lemma load_variants_witness :
  exists n t',
    n <= 4 /\
    resume_n ex_host n ex_fresh (new_task (InImage ex_img) false)
    = ((_loadModel ex_host (set_flags false true ex_fresh)).2, t') /\
    match (_loadModel ex_host (set_flags false true ex_fresh)).1 with
    | Ok _ => pc t' = AwaitLoad ex_img
    | Throw e => pc t' = Settled (Throw e)
    end.
Proof.
  apply (load_variants ex_host ex_fresh ex_img false); [reflexivity|reflexivity|].
  intros r Hr _. injection Hr as <-. by eexists.
Defined.
